(** * sync-to-r2.js: incremental upload of a logo tree to an S3-compatible bucket

    A shallow embedding of [sync-to-r2.js].  The script reads its configuration
    from the environment, validates it, scans [football_logos/] recursively,
    and for every file compares the MD5 of the local bytes with the ETag the
    bucket reports; files whose tag differs are uploaded with [PutObject].

    Conventions of the embedding:
    - JavaScript strings are [string]s (bytes); the only character-level
      operations of the script ([endsWith], the [/i] regex on an ASCII
      pattern, the removal of double quotes) act on ASCII characters.
    - values that may be [undefined] are [option]s; the result of
      [getR2FileETag], which may also be [null], is a [JsValue].
    - [async] functions that talk to the bucket are state transformers over
      a [World]; a rejected promise / thrown exception is [Throw].
    - [console] output and [process.exit] are collected in a [Process].
    - a read stream that is created and never consumed keeps its error in
      the [World]; nothing handles it, and it ends the process.  [syncLoop]
      is the iteration of the loop body over a list of files, [liveLoop]
      the part of it the process runs before such an error ends it; the two
      agree on the files that are processed.

    The data layer of the site, [src/lib/data.ts], is embedded in the module
    [Data]; its listings and paths are related to each other and to the keys
    of the sync at the end of the file. *)

From stdpp Require Import gmap strings list.
From Stdlib Require Import NArith Ascii String Lia DecimalString.
From Stdlib.Strings Require Import Byte.

Open Scope string_scope.

(** ** JavaScript values and exceptions *)

(** An [Error] object, as far as the script inspects it. *)
Record JsError := mkError { name : string; message : string }.

Inductive result (A : Type) : Type :=
| Ok (a : A)
| Throw (e : JsError).
Arguments Ok {A} a.
Arguments Throw {A} e.

(** The values [r2Hash] can take: [null], [undefined] or a string. *)
Inductive JsValue :=
| JNull
| JUndefined
| JString (s : string).

(** [ToBoolean]: [null], [undefined] and the empty string are falsy. *)
Definition truthy (v : JsValue) : bool :=
  match v with
  | JNull | JUndefined => false
  | JString s => negb (String.eqb s "")
  end.

(** [v === s] for a string [s]. *)
Definition strictEqString (v : JsValue) (s : string) : bool :=
  match v with
  | JString t => String.eqb t s
  | _ => false
  end.

(** A property that may be [undefined], read as a [JsValue]. *)
Definition ofOption (o : option string) : JsValue :=
  match o with
  | Some s => JString s
  | None => JUndefined
  end.

(** ** String helpers *)

(** [s.endsWith(suffix)]. *)
Definition endsWith (s suf : string) : bool :=
  bool_decide (list_ascii_of_string suf `suffix_of` list_ascii_of_string s).

(** The double-quote character, code 34. *)
Definition quoteChar : ascii := "034"%char.

Definition isQuote (c : ascii) : bool := Ascii.eqb c quoteChar.

(** [s.replace(/\x22/g, '')], the script's global replace of the quote
    character by the empty string: every double quote is removed. *)
Fixpoint removeQuotes (s : string) : string :=
  match s with
  | EmptyString => EmptyString
  | String c rest =>
      if isQuote c then removeQuotes rest else String c (removeQuotes rest)
  end.

(** Does [s] contain a double quote? *)
Fixpoint hasQuote (s : string) : bool :=
  match s with
  | EmptyString => false
  | String c rest => isQuote c || hasQuote rest
  end.

(** ASCII lower-casing, the case folding the [/i] flag performs on the
    letters of the pattern. *)
Definition lowerChar (c : ascii) : ascii :=
  let n := nat_of_ascii c in
  if (65 <=? n)%nat && (n <=? 90)%nat then ascii_of_nat (n + 32) else c.

Fixpoint toLower (s : string) : string :=
  match s with
  | EmptyString => EmptyString
  | String c rest => String (lowerChar c) (toLower rest)
  end.

(** [name.match(/\.(svg|png|json)$/i)] as a boolean. *)
Definition allowedExtensions : list string := ["svg"; "png"; "json"].

Definition matchesAllowlist (fileName : string) : bool :=
  existsb (fun ext => endsWith (toLower fileName) ("." ++ ext)) allowedExtensions.

(** ** Configuration (lines 19-48) *)

(** [process.env]: a variable is unset ([None]) or holds a string. *)
Definition Env := string -> option string.

Record Config := mkConfig {
  accountId : option string;
  accessKeyId : option string;
  secretAccessKey : option string;
  bucketName : option string;
  publicUrl : option string
}.

(** [a || b] on a possibly-undefined string. *)
Definition orElse (a : option string) (b : string) : option string :=
  if truthy (ofOption a) then a else Some b.

Definition config (env : Env) : Config :=
  {| accountId := env "CLOUDFLARE_ACCOUNT_ID";
     accessKeyId := env "R2_ACCESS_KEY_ID";
     secretAccessKey := env "R2_SECRET_ACCESS_KEY";
     bucketName := orElse (env "R2_BUCKET_NAME") "football-logos";
     publicUrl := env "R2_PUBLIC_URL" |}.

(** [config[key]]. *)
Definition configGet (c : Config) (key : string) : option string :=
  if String.eqb key "accountId" then accountId c
  else if String.eqb key "accessKeyId" then accessKeyId c
  else if String.eqb key "secretAccessKey" then secretAccessKey c
  else if String.eqb key "bucketName" then bucketName c
  else if String.eqb key "publicUrl" then publicUrl c
  else None.

Definition required : list string :=
  ["accountId"; "accessKeyId"; "secretAccessKey"; "bucketName"].

Definition missing (c : Config) : list string :=
  List.filter (fun key => negb (truthy (ofOption (configGet c key)))) required.

Definition envVar (key : string) : string :=
  if String.eqb key "accountId" then "CLOUDFLARE_ACCOUNT_ID"
  else if String.eqb key "accessKeyId" then "R2_ACCESS_KEY_ID"
  else if String.eqb key "secretAccessKey" then "R2_SECRET_ACCESS_KEY"
  else "R2_BUCKET_NAME".

(** ** Console and exit status *)

Inductive Stream := Stdout | Stderr.

Record Process := mkProcess {
  console : list (Stream * string);
  exitCode : option nat
}.

(** The line printed for one missing environment variable. *)
Definition missingLine (var : string) : Stream * string := (Stderr, "   - " ++ var).

Definition missingHeader : list (Stream * string) :=
  [(Stderr, "❌ Missing required environment variables:")].

Definition missingFooter : list (Stream * string) :=
  [(Stderr, String "010"%char "Please set these environment variables or add them to a .env file.");
   (Stderr, "See R2_DEPLOYMENT.md for setup instructions.")].

(** [validateConfig]: the lines written to stderr when something is missing,
    followed by [process.exit(1)]; [None] when the configuration is complete
    and the script goes on. *)
Definition validateConfig (c : Config) : option Process :=
  match missing c with
  | [] => None
  | _ :: _ =>
      Some {| console :=
                missingHeader
                ++ List.map (fun key => missingLine (envVar key)) (missing c)
                ++ missingFooter;
              exitCode := Some 1%nat |}
  end.

(** ** The machine the script runs on *)

(** A directory entry as [readdir(dir, { withFileTypes: true })] returns it.
    A directory carries the outcome of listing it, which may be an exception
    (for instance [EACCES]); every other kind of entry, symbolic links
    included, answers [false] to [isDirectory()]. *)
#[warnings="-register-all"]
Inductive Dirent :=
| FileEntry (entryName : string)
| DirEntry (entryName : string) (listing : result (list Dirent)).

(** What the script reads from its host: the MD5 function of [crypto], the
    directory of the script ([__dirname]), the listing of
    [football_logos/], and the outcomes of [readFile] and [statSync(..).size]
    on a path.  The local tree does not change while the script runs,
    except that a file may be gone by the time it is measured: [readFile]
    and [statSize] are separate outcomes. *)
Record Host := mkHost {
  md5 : list byte -> list byte;
  dirname : string;
  logosListing : result (list Dirent);
  readFile : string -> result (list byte);
  statSize : string -> result N
}.

(** ** The bucket *)

Record R2Object := mkObject {
  ETag : option string;
  ContentType : string;
  CacheControl : string;
  Body : list byte
}.

Inductive Command :=
| HeadObjectCommand (Bucket : option string) (Key : string)
| PutObjectCommand (Bucket : option string) (Key : string) (body : list byte)
    (contentType cacheControl : string).

Inductive Event :=
| EvReadFile (path : string)
| EvStat (path : string)
| EvReadStream (path : string)
| EvSend (c : Command).

(** The state outside the script: the objects of the bucket, the transport
    faults still to come (each [send] consumes one entry; [Some e] makes
    that request fail with [e], [None] lets it through), the trace of the
    input/output performed so far, and the error of a read stream that was
    created but handed to nobody ([orphan], see [uploadFile]): nothing
    listens to it, so it ends the process at the next turn of the event
    loop. *)
Record World := mkWorld {
  bucket : gmap string R2Object;
  faults : list (option JsError);
  trace : list Event;
  orphan : option JsError
}.

(** ** A state-and-exception monad for the [async] functions *)

Definition M (A : Type) : Type := World -> result A * World.

Definition ret {A} (a : A) : M A := fun w => (Ok a, w).

Definition bind {A B} (m : M A) (k : A -> M B) : M B :=
  fun w =>
    match m w with
    | (Ok a, w') => k a w'
    | (Throw e, w') => (Throw e, w')
    end.

Notation "'let*' x ':=' m 'in' k" := (bind m (fun x => k))
  (at level 10, x name, m at level 100, k at level 200).

Definition logEvent (ev : Event) (w : World) : World :=
  {| bucket := bucket w; faults := faults w; trace := trace w ++ [ev];
     orphan := orphan w |}.

Definition emit (ev : Event) : M unit := fun w => (Ok tt, logEvent ev w).

(** Lifting a host operation whose outcome does not depend on the bucket. *)
Definition liftResult {A} (r : result A) : M A := fun w => (r, w).

(** ** Hexadecimal digests *)

Definition hexDigit (n : N) : ascii :=
  nth (N.to_nat n) (list_ascii_of_string "0123456789abcdef") "0"%char.

Fixpoint hex (bs : list byte) : string :=
  match bs with
  | [] => EmptyString
  | b :: rest =>
      String (hexDigit (Byte.to_N b / 16)) (String (hexDigit (Byte.to_N b mod 16)) (hex rest))
  end.

(** [createHash('md5').update(fileBuffer).digest('hex')]. *)
Definition md5hex (h : Host) (fileBuffer : list byte) : string := hex (md5 h fileBuffer).

(** ** The S3 operations the script uses

    The contract of the store the script is written against: [HeadObject]
    on a key without object fails with an error named [NotFound];
    [PutObject] stores the body and tags it with the quoted hexadecimal MD5
    of the body; a request that fails leaves the bucket as it was. *)

Definition notFound : JsError := {| name := "NotFound"; message := "UnknownError" |}.

Definition quoted (s : string) : string :=
  String quoteChar (s ++ String quoteChar EmptyString).

(** The fault, if any, that the next request runs into. *)
Definition pendingFault (w : World) : option JsError :=
  match faults w with
  | Some e :: _ => Some e
  | _ => None
  end.

Definition consumeFault (w : World) : World :=
  {| bucket := bucket w; faults := tail (faults w); trace := trace w;
     orphan := orphan w |}.

(** Every request consumes one entry of the fault script. *)
Definition transport : M unit :=
  fun w =>
    match pendingFault w with
    | Some e => (Throw e, consumeFault w)
    | None => (Ok tt, consumeFault w)
    end.

(** [r2Client.send(new HeadObjectCommand(..))]: the [ETag] of the response. *)
Definition sendHead (Bucket : option string) (Key : string) : M (option string) :=
  let* _ := emit (EvSend (HeadObjectCommand Bucket Key)) in
  let* _ := transport in
  fun w =>
    match bucket w !! Key with
    | Some obj => (Ok (ETag obj), w)
    | None => (Throw notFound, w)
    end.

(** The object a successful [PutObject] leaves under its key. *)
Definition storedObject (h : Host) (body : list byte) (contentType cacheControl : string)
    : R2Object :=
  {| ETag := Some (quoted (md5hex h body));
     ContentType := contentType;
     CacheControl := cacheControl;
     Body := body |}.

Definition store (Key : string) (obj : R2Object) (w : World) : World :=
  {| bucket := <[Key := obj]> (bucket w); faults := faults w; trace := trace w;
     orphan := orphan w |}.

(** [r2Client.send(new PutObjectCommand(..))]. *)
Definition sendPut (h : Host) (Bucket : option string) (Key : string) (body : list byte)
    (contentType cacheControl : string) : M unit :=
  let* _ := emit (EvSend (PutObjectCommand Bucket Key body contentType cacheControl)) in
  let* _ := transport in
  fun w => (Ok tt, store Key (storedObject h body contentType cacheControl) w).

(** ** [getFileHash] (lines 61-64) *)

Definition getFileHash (h : Host) (filePath : string) : M string :=
  let* _ := emit (EvReadFile filePath) in
  let* fileBuffer := liftResult (readFile h filePath) in
  ret (md5hex h fileBuffer).

(** ** [getR2FileETag] (lines 67-82)

    [response.ETag?.replace(..)] is [undefined] when the response has no
    [ETag]; the [catch] turns an error named [NotFound] into [null] and
    rethrows every other one. *)
Definition getR2FileETag (cfg : Config) (key : string) : M JsValue :=
  fun w =>
    match sendHead (bucketName cfg) key w with
    | (Ok etag, w') => (Ok (ofOption (removeQuotes <$> etag)), w')
    | (Throw error, w') =>
        if String.eqb (name error) "NotFound" then (Ok JNull, w')
        else (Throw error, w')
    end.

(** ** Paths *)

(** [path.join(dir, name)] for a normalised [dir] and a plain entry name. *)
Definition join (dir entry : string) : string := dir ++ "/" ++ entry.

Fixpoint stripPrefix (p s : string) : option string :=
  match p, s with
  | EmptyString, _ => Some s
  | String a p', String b s' => if Ascii.eqb a b then stripPrefix p' s' else None
  | String _ _, EmptyString => None
  end.

(** [path.relative(from, to)] for a [to] below [from], the only case that
    arises in the script: the part of [to] after [from/].  Node resolves and
    normalises both paths first, which changes nothing on the paths of the
    script: [from] is [__dirname/football_logos] and [to] is [from]
    followed by names that [readdir] returned.  The embedding is this
    function on such paths only; it does not normalise an empty, [.] or
    [..] segment, and for a path that is not below [from], where node would
    climb with [..], it returns [to] unchanged. *)
Definition relative (from to : string) : string :=
  match stripPrefix (from ++ "/") to with
  | Some rest => rest
  | None => to
  end.

Definition logosDir (h : Host) : string := join (dirname h) "football_logos".

(** ** [getFiles] (lines 85-102)

    [visitEntry dir file fileList] is one iteration of the [for] loop of
    [getFiles(dir, fileList)]; in the directory case the nested [fix] is the
    recursive call [getFiles(filePath, fileList)].  An exception of
    [readdir] is not caught anywhere in [getFiles]. *)
Fixpoint visitEntry (dir : string) (file : Dirent) (fileList : list string)
    {struct file} : result (list string) :=
  match file with
  | DirEntry entryName listing =>
      let filePath := join dir entryName in
      match listing with
      | Throw e => Throw e
      | Ok files =>
          (fix each (files : list Dirent) (fileList : list string) : result (list string) :=
             match files with
             | [] => Ok fileList
             | file :: rest =>
                 match visitEntry filePath file fileList with
                 | Ok fileList' => each rest fileList'
                 | Throw e => Throw e
                 end
             end) files fileList
      end
  | FileEntry entryName =>
      let filePath := join dir entryName in
      if matchesAllowlist entryName then Ok (fileList ++ [filePath])%list else Ok fileList
  end.

Fixpoint visitEntries (dir : string) (files : list Dirent) (fileList : list string)
    : result (list string) :=
  match files with
  | [] => Ok fileList
  | file :: rest =>
      match visitEntry dir file fileList with
      | Ok fileList' => visitEntries dir rest fileList'
      | Throw e => Throw e
      end
  end.

(** [getFiles(dir, fileList)], given the outcome of [readdir(dir)]. *)
Definition getFiles (dir : string) (listing : result (list Dirent)) (fileList : list string)
    : result (list string) :=
  match listing with
  | Throw e => Throw e
  | Ok files => visitEntries dir files fileList
  end.

(** ** [uploadFile] (lines 105-125) *)

Definition contentTypeOf (localPath : string) : string :=
  if endsWith localPath ".svg" then "image/svg+xml"
  else if endsWith localPath ".png" then "image/png"
  else if endsWith localPath ".json" then "application/json"
  else "application/octet-stream".

Definition cacheControl : string := "public, max-age=31536000, immutable".

(** The world after [statSync] threw on a path for which a read stream had
    just been created: the stream is left with its error. *)
Definition leaveOrphan (e : JsError) (w : World) : World :=
  {| bucket := bucket w; faults := faults w; trace := trace w;
     orphan := match orphan w with Some first => Some first | None => Some e end |}.

(** [statSync(localPath)] at line 107, after [createReadStream(localPath)]
    at line 106.  The stream does nothing before the next turn of the event
    loop, so [statSync] is the first access to the file.  When it throws,
    the exception goes to the [catch] of the loop like any other, but the
    stream is never passed to [send]: the path that cannot be measured
    cannot be opened either, and the [error] event of the stream has no
    listener. *)
Definition statAfterStream (h : Host) (localPath : string) : M N :=
  fun w =>
    match statSize h localPath with
    | Ok size => (Ok size, w)
    | Throw e => (Throw e, leaveOrphan e w)
    end.

(** [createReadStream] (line 106) only creates the stream; the file is read
    when [send] consumes it, after [statSync] (line 107), hence the order
    of [EvStat] and [EvReadStream].  A file that cannot be read makes the
    request fail before anything is stored. *)
Definition uploadFile (h : Host) (cfg : Config) (localPath r2Key : string) : M N :=
  let* _ := emit (EvStat localPath) in
  let* size := statAfterStream h localPath in
  let contentType := contentTypeOf localPath in
  let* _ := emit (EvReadStream localPath) in
  let* fileStream := liftResult (readFile h localPath) in
  let* _ := sendPut h (bucketName cfg) r2Key fileStream contentType cacheControl in
  ret size.

(** ** The loop of [syncToR2] (lines 141-173) *)

Record ErrorEntry := mkEntry { file : string; error : string }.

Record Run := mkRun {
  uploaded : nat;
  skipped : nat;
  totalBytes : N;
  errors : list ErrorEntry;
  output : list (Stream * string)
}.

Definition r2KeyOf (relativePath : string) : string := "football_logos/" ++ relativePath.

(** The body of the inner [try].  The counters are only assigned after the
    last operation that can throw, so the body is a computation that yields
    the updated [Run]. *)
Definition tryFile (h : Host) (cfg : Config) (localPath : string) (st : Run) : M Run :=
  let relativePath := relative (logosDir h) localPath in
  let r2Key := r2KeyOf relativePath in
  let* localHash := getFileHash h localPath in
  let* r2Hash := getR2FileETag cfg r2Key in
  if strictEqString r2Hash localHash then
    ret {| uploaded := uploaded st;
           skipped := S (skipped st);
           totalBytes := totalBytes st;
           errors := errors st;
           output := output st ++ [(Stdout, "⏭️  Skip: " ++ relativePath ++ String "013"%char "")] |}
  else
    let* bytes := uploadFile h cfg localPath r2Key in
    ret {| uploaded := S (uploaded st);
           skipped := skipped st;
           totalBytes := (totalBytes st + bytes)%N;
           errors := errors st;
           output := output st ++
             [(Stdout, "✅ " ++ (if truthy r2Hash then "Updated" else "Uploaded")
                         ++ ": " ++ relativePath)] |}.

(** One iteration: the [try] and its [catch]. *)
Definition syncFile (h : Host) (cfg : Config) (localPath : string) (st : Run) (w : World)
    : Run * World :=
  let relativePath := relative (logosDir h) localPath in
  match tryFile h cfg localPath st w with
  | (Ok st', w') => (st', w')
  | (Throw e, w') =>
      ({| uploaded := uploaded st;
          skipped := skipped st;
          totalBytes := totalBytes st;
          errors := errors st ++ [{| file := relativePath; error := message e |}];
          output := output st ++
            [(Stderr, "❌ Error: " ++ relativePath ++ " - " ++ message e)] |}, w')
  end.

(** The iterations of the loop over a list of files, one after the other,
    as they run while the process lives. *)
Fixpoint syncLoop (h : Host) (cfg : Config) (localFiles : list string) (st : Run) (w : World)
    : Run * World :=
  match localFiles with
  | [] => (st, w)
  | localPath :: rest =>
      let '(st', w') := syncFile h cfg localPath st w in
      syncLoop h cfg rest st' w'
  end.

(** The loop as the process runs it.  An iteration starts only while no
    read stream has been left over: the unhandled error of such a stream
    ends the process at the first [await] of the next iteration, and the
    files from there on are never processed.  The third component is the
    list of these files. *)
Fixpoint liveLoop (h : Host) (cfg : Config) (localFiles : list string) (st : Run) (w : World)
    : Run * World * list string :=
  match localFiles with
  | [] => (st, w, [])
  | localPath :: rest =>
      match orphan w with
      | Some _ => (st, w, localFiles)
      | None =>
          let '(st', w') := syncFile h cfg localPath st w in
          liveLoop h cfg rest st' w'
      end
  end.

Definition initialRun (out : list (Stream * string)) : Run :=
  {| uploaded := 0; skipped := 0; totalBytes := 0; errors := []; output := out |}.

(** ** [formatBytes] (lines 207-213)

    The script computes with IEEE doubles.  [Math.floor(Math.log(bytes) /
    Math.log(k))] is the integer part of the base-1024 logarithm, here
    [N.log2 bytes / 10]; [bytes / Math.pow(k, i)] divides by a power of two
    and is exact; [Math.round] rounds half up, so
    [Math.round(bytes / k^i * 100)] is [(200 * bytes + k^i) / (2 * k^i)];
    the final division by 100 and the conversion to a string print the
    hundredths without trailing zeros.  [sizes[i]] beyond the end of the
    array is [undefined], which string concatenation prints as such. *)

Definition showN (n : N) : string := NilZero.string_of_uint (N.to_uint n).

Definition showNat (n : nat) : string := NilZero.string_of_uint (Nat.to_uint n).

Definition sizes : list string := ["Bytes"; "KB"; "MB"; "GB"].

(** [sizes[i]] inside a string concatenation. *)
Definition sizeName (i : N) : string :=
  match nth_error sizes (N.to_nat i) with
  | Some unit => unit
  | None => "undefined"
  end.

(** [Math.floor(Math.log(bytes) / Math.log(1024))] for [bytes > 0], as the
    exact integer logarithm.  The quotient of the two floating-point
    logarithms has this floor for every count below [1024^4], the range of
    the table [sizes], and well beyond; it is exactly 4 at [1024^4], so
    that the index of a larger count is at least 4 on both sides.  Just
    below [1024^5] the two differ: at [2^50 - 1] the quotient rounds up to
    5 while the exact logarithm is 4. *)
Definition unitIndex (bytes : N) : N := (N.log2 bytes / 10)%N.

(** [Math.round(bytes / Math.pow(1024, i) * 100)].  Below [1024^4] the
    division by a power of two and the product by 100 are exact in double
    precision (at most 47 significant bits), so the rounding is the exact
    rounding half up. *)
Definition roundedHundredths (bytes i : N) : N :=
  ((200 * bytes + 1024 ^ i) / (2 * 1024 ^ i))%N.

(** The decimal string of [hundredths / 100]. *)
Definition showHundredths (hundredths : N) : string :=
  let whole := (hundredths / 100)%N in
  let frac := (hundredths mod 100)%N in
  if (frac =? 0)%N then showN whole
  else if (frac mod 10 =? 0)%N then showN whole ++ "." ++ showN (frac / 10)
  else if (frac <? 10)%N then showN whole ++ ".0" ++ showN frac
  else showN whole ++ "." ++ showN frac.

Definition formatBytes (bytes : N) : string :=
  if (bytes =? 0)%N then "0 Bytes"
  else
    let i := unitIndex bytes in
    showHundredths (roundedHundredths bytes i) ++ " " ++ sizeName i.

(** ** [syncToR2] (lines 128-204) and the script as a whole *)

(** A possibly-undefined string inside a template literal. *)
Definition showOption (o : option string) : string :=
  match o with
  | Some s => s
  | None => "undefined"
  end.

Definition newline : string := String "010"%char "".

Fixpoint repeatString (s : string) (n : nat) : string :=
  match n with
  | O => ""
  | S n' => s ++ repeatString s n'
  end.

Definition banner (cfg : Config) : list (Stream * string) :=
  [(Stdout, "🚀 Starting sync to Cloudflare R2..." ++ newline);
   (Stdout, "📦 Bucket: " ++ showOption (bucketName cfg));
   (Stdout, "🔧 Account ID: " ++ showOption (accountId cfg) ++ newline);
   (Stdout, "📂 Scanning local files...")].

Definition summaryLines (cfg : Config) (st : Run) : list (Stream * string) :=
  [(Stdout, newline ++ repeatString "=" 60);
   (Stdout, "📊 Sync Summary");
   (Stdout, repeatString "=" 60);
   (Stdout, "✅ Uploaded: " ++ showNat (uploaded st) ++ " files ("
              ++ formatBytes (totalBytes st) ++ ")");
   (Stdout, "⏭️  Skipped: " ++ showNat (skipped st) ++ " files (unchanged)")]
  ++ (if (0 <? List.length (errors st))%nat then
        (Stdout, "❌ Errors: " ++ showNat (List.length (errors st)) ++ " files")
        :: List.map (fun e => (Stdout, "   - " ++ file e ++ ": " ++ error e)) (errors st)
      else [])
  ++ [(Stdout, repeatString "=" 60)]
  ++ (if truthy (ofOption (publicUrl cfg)) then
        [(Stdout, newline ++ "🌐 Public URL: " ++ showOption (publicUrl cfg));
         (Stdout, "   Example: " ++ showOption (publicUrl cfg)
                    ++ "/football_logos/england/svg/Arsenal.svg")]
      else
        [(Stdout, newline ++ "💡 Tip: Set R2_PUBLIC_URL to see example URLs")])
  ++ [(Stdout, newline ++ "✨ Sync complete!")].

Definition foundLine (localFiles : list string) : Stream * string :=
  (Stdout, "   Found " ++ showNat (List.length localFiles) ++ " files" ++ newline).

(** What the runtime does with the error of a left-over stream: it reports
    the unhandled event on stderr (one line stands for the report, whose
    text is the runtime's) and ends the process with status 1. *)
Definition uncaughtReport (o : option JsError) : list (Stream * string) :=
  match o with
  | Some e => [(Stderr, "Unhandled 'error' event: " ++ message e)]
  | None => []
  end.

Definition statusAfter (o : option JsError) : option nat :=
  match o with
  | Some _ => Some 1%nat
  | None => None
  end.

(** The only exception that reaches the outer [catch] is one thrown by
    [getFiles]: every exception of the loop body is caught by the inner
    [try].  The outer handler reports it and exits with status 1.  When the
    loop is cut short by a left-over stream the summary is never printed;
    when the stream is left over by the last file, the summary is printed
    (nothing is awaited after the loop) and the process ends with status 1
    right after. *)
Definition syncToR2 (h : Host) (cfg : Config) (w : World) : Process * World :=
  match getFiles (logosDir h) (logosListing h) [] with
  | Throw error =>
      ({| console := app (banner cfg)
            [(Stderr, newline ++ "❌ Sync failed: " ++ message error)];
          exitCode := Some 1%nat |}, w)
  | Ok localFiles =>
      let out := app (banner cfg) [foundLine localFiles] in
      let '(st, w', unprocessed) := liveLoop h cfg localFiles (initialRun out) w in
      match unprocessed with
      | [] =>
          ({| console := app (app (output st) (summaryLines cfg st))
                           (uncaughtReport (orphan w'));
              exitCode := statusAfter (orphan w') |}, w')
      | _ :: _ =>
          ({| console := app (output st) (uncaughtReport (orphan w'));
              exitCode := Some 1%nat |}, w')
      end
  end.

(** The top level of the script for a given [config] object:
    [validateConfig()], then [syncToR2()]. *)
Definition script (h : Host) (cfg : Config) (w : World) : Process * World :=
  match validateConfig cfg with
  | Some aborted => (aborted, w)
  | None => syncToR2 h cfg w
  end.

(** The script started in an environment. *)
Definition main (h : Host) (env : Env) (w : World) : Process * World :=
  script h (config env) w.

(** ** The per-file decision and terminal state

    The script has no value for its decision: it is the branch taken at the
    comparison together with the label it prints for an upload ([Updated]
    for a truthy remote tag, [Uploaded] otherwise). *)

Inductive SyncDecision := Unchanged | New | Modified.

Definition syncDecision (localHash : string) (r2Hash : JsValue) : SyncDecision :=
  if strictEqString r2Hash localHash then Unchanged
  else if truthy r2Hash then Modified
  else New.

Inductive Terminal :=
| Recorded (decision : SyncDecision) (bytesTransferred : N)
| Failed (errorMessage : string).

(** The terminal state of a file that had to be uploaded. *)
Definition uploaded_as (decision : SyncDecision) (r : result N * World) : Terminal * World :=
  match r with
  | (Ok bytes, w) => (Recorded decision bytes, w)
  | (Throw e, w) => (Failed (message e), w)
  end.

(** The pipeline of one file (fingerprint, resolve, decide, upload), read off
    the loop body, with the terminal state it ends in. *)
Definition pipeline (h : Host) (cfg : Config) (localPath : string) (w : World)
    : Terminal * World :=
  let r2Key := r2KeyOf (relative (logosDir h) localPath) in
  match getFileHash h localPath w with
  | (Throw e, w1) => (Failed (message e), w1)
  | (Ok localHash, w1) =>
      match getR2FileETag cfg r2Key w1 with
      | (Throw e, w2) => (Failed (message e), w2)
      | (Ok r2Hash, w2) =>
          match syncDecision localHash r2Hash with
          | Unchanged => (Recorded Unchanged 0, w2)
          | decision => uploaded_as decision (uploadFile h cfg localPath r2Key w2)
          end
      end
  end.

(** The terminal states of a whole run, in processing order. *)
Fixpoint outcomes (h : Host) (cfg : Config) (localFiles : list string) (w : World)
    : list (string * Terminal) * World :=
  match localFiles with
  | [] => ([], w)
  | localPath :: rest =>
      let '(t, w') := pipeline h cfg localPath w in
      let '(ts, w'') := outcomes h cfg rest w' in
      ((localPath, t) :: ts, w'')
  end.

Definition isUpload (t : Terminal) : bool :=
  match t with
  | Recorded New _ | Recorded Modified _ => true
  | _ => false
  end.

Definition isSkip (t : Terminal) : bool :=
  match t with
  | Recorded Unchanged _ => true
  | _ => false
  end.

Definition isFailure (t : Terminal) : bool :=
  match t with
  | Failed _ => true
  | _ => false
  end.

Definition bytesOf (t : Terminal) : N :=
  match t with
  | Recorded _ bytes => bytes
  | Failed _ => 0
  end.

Definition failureOf (h : Host) (o : string * Terminal) : list ErrorEntry :=
  match snd o with
  | Failed msg => [{| file := relative (logosDir h) (fst o); error := msg |}]
  | Recorded _ _ => []
  end.

Definition sumN (l : list N) : N := fold_right N.add 0%N l.

(** [statSync(path).size], zero when the call throws. *)
Definition sizeOf (h : Host) (localPath : string) : N :=
  match statSize h localPath with
  | Ok size => size
  | Throw _ => 0
  end.

Definition countWhere (f : Terminal -> bool) (ts : list (string * Terminal)) : nat :=
  List.length (List.filter (fun o => f (snd o)) ts).

Definition headEvent (cfg : Config) (key : string) : Event :=
  EvSend (HeadObjectCommand (bucketName cfg) key).

(** The line the loop prints for a file that reached [Recorded]. *)
Definition decisionLine (d : SyncDecision) (relativePath : string) : Stream * string :=
  match d with
  | Unchanged => (Stdout, "⏭️  Skip: " ++ relativePath ++ String "013"%char "")
  | New => (Stdout, "✅ Uploaded: " ++ relativePath)
  | Modified => (Stdout, "✅ Updated: " ++ relativePath)
  end.

(** The reading of the specification under which a file is [New] exactly
    when the resolver reports no object ([null]). *)
Definition newIffAbsent (h : Host) (cfg : Config) (localPath : string) (w : World) : Prop :=
  forall localHash r2Hash w1 w2,
    getFileHash h localPath w = (Ok localHash, w1) ->
    getR2FileETag cfg (r2KeyOf (relative (logosDir h) localPath)) w1 = (Ok r2Hash, w2) ->
    (syncDecision localHash r2Hash = New <-> r2Hash = JNull).

(** A path below [root]. *)
Definition underDir (root p : string) : Prop := exists x, p = root ++ "/" ++ x.

(** The bucket holds, under the key of [p], an object whose tag (quotes
    removed) is the digest of the local bytes of [p]. *)
Definition synced (h : Host) (b : gmap string R2Object) (p : string) : Prop :=
  exists body obj,
    readFile h p = Ok body /\
    b !! r2KeyOf (relative (logosDir h) p) = Some obj /\
    removeQuotes <$> ETag obj = Some (md5hex h body).

(** The store reports [NotFound] only for keys without object: no transport
    fault carries that name. *)
Definition noSpuriousNotFound (fs : list (option JsError)) : Prop :=
  Forall (fun o => forall e, o = Some e -> name e <> "NotFound") fs.

(** A tree all of whose directories can be listed. *)
Fixpoint readableEntry (d : Dirent) : bool :=
  match d with
  | FileEntry _ => true
  | DirEntry _ (Throw _) => false
  | DirEntry _ (Ok files) => forallb readableEntry files
  end.

Definition readableListing (listing : result (list Dirent)) : bool :=
  match listing with
  | Ok files => forallb readableEntry files
  | Throw _ => false
  end.

(** What the loop body of the scanner does with one entry. *)
Definition scanOutcome (dir : string) (d : Dirent) : Prop :=
  forall fileList,
    if readableEntry d
    then exists fileList', visitEntry dir d fileList = Ok fileList'
    else exists e, visitEntry dir d fileList = Throw e.

(** The reading of the specification under which a scan error stays local:
    the scan still yields a file list and the run is not aborted. *)
Definition scanErrorIsScoped (h : Host) (cfg : Config) (w : World) : Prop :=
  exists localFiles,
    getFiles (logosDir h) (logosListing h) [] = Ok localFiles /\
    exitCode (fst (syncToR2 h cfg w)) = None.

(** The report of the outer [catch]. *)
Definition syncFailed (cfg : Config) (e : JsError) : Process :=
  {| console := app (banner cfg) [(Stderr, newline ++ "❌ Sync failed: " ++ message e)];
     exitCode := Some 1%nat |}.

(** ** Closed examples

    [sampleMd5] stands in for MD5 in the examples; the theorems hold for
    every digest function. *)

Definition sampleMd5 (bs : list byte) : list byte := bs.

Definition arsenal : string := "/app/football_logos/england/Arsenal.svg".
Definition chelsea : string := "/app/football_logos/england/Chelsea.PNG".
Definition indexJson : string := "/app/football_logos/index.json".

Definition enoent : JsError :=
  {| name := "Error"; message := "ENOENT: no such file or directory" |}.

Definition eacces : JsError :=
  {| name := "Error"; message := "EACCES: permission denied, scandir" |}.

Definition sampleRead (p : string) : result (list byte) :=
  if String.eqb p arsenal then Ok [x01; x02; x03]
  else if String.eqb p chelsea then Ok [x04]
  else Throw enoent.

Definition sampleSize (p : string) : result N :=
  match sampleRead p with
  | Ok body => Ok (N.of_nat (List.length body))
  | Throw e => Throw e
  end.

Definition sampleHost : Host :=
  {| md5 := sampleMd5;
     dirname := "/app";
     logosListing :=
       Ok [DirEntry "england"
             (Ok [FileEntry "Arsenal.svg"; FileEntry "Chelsea.PNG"; FileEntry "notes.txt"])];
     readFile := sampleRead;
     statSize := sampleSize |}.

(** A tree with one directory that cannot be listed next to a readable
    logo. *)
Definition lockedHost : Host :=
  {| md5 := sampleMd5;
     dirname := "/app";
     logosListing :=
       Ok [DirEntry "locked" (Throw eacces);
           DirEntry "england" (Ok [FileEntry "Arsenal.svg"])];
     readFile := sampleRead;
     statSize := sampleSize |}.

(** A file that is read for its digest and is gone when [uploadFile]
    measures it: [statSync] throws on [Arsenal.svg]. *)
Definition vanishingSize (p : string) : result N :=
  if String.eqb p arsenal then Throw enoent else sampleSize p.

Definition vanishingHost : Host :=
  {| md5 := sampleMd5;
     dirname := "/app";
     logosListing :=
       Ok [DirEntry "england"
             (Ok [FileEntry "Arsenal.svg"; FileEntry "Chelsea.PNG"; FileEntry "notes.txt"])];
     readFile := sampleRead;
     statSize := vanishingSize |}.

Definition sampleEnv : Env :=
  fun var =>
    if String.eqb var "CLOUDFLARE_ACCOUNT_ID" then Some "acct"
    else if String.eqb var "R2_ACCESS_KEY_ID" then Some "key"
    else if String.eqb var "R2_SECRET_ACCESS_KEY" then Some "secret"
    else None.

Definition sampleConfig : Config := config sampleEnv.

Definition emptyWorld : World :=
  {| bucket := ∅; faults := []; trace := []; orphan := None |}.

(** A bucket that holds an object for [Arsenal.svg] whose [HeadObject]
    response carries no [ETag]. *)
Definition untaggedWorld : World :=
  {| bucket := {[ "football_logos/england/Arsenal.svg" :=
                    {| ETag := None; ContentType := "image/svg+xml";
                       CacheControl := cacheControl; Body := [x01; x02; x03] |} ]};
     faults := [];
     trace := [];
     orphan := None |}.

(** A value is missing when the variable is unset or empty, the two cases in
    which the negation of [config[key]] holds. *)
Definition isMissing (o : option string) : Prop := o = None \/ o = Some "".

(** ** Reference functions for the further properties *)

(** The paths a scan is expected to collect from one entry: the entry
    itself when it is a file with an allowed extension, and the files of a
    directory in the order of its listing, recursively. *)
Fixpoint entryFiles (dir : string) (d : Dirent) : list string :=
  match d with
  | FileEntry entryName =>
      if matchesAllowlist entryName then [join dir entryName] else []
  | DirEntry entryName (Ok files) => flat_map (entryFiles (join dir entryName)) files
  | DirEntry _ (Throw _) => []
  end.

(** The remote key of a local path. *)
Definition keyOf (h : Host) (localPath : string) : string :=
  r2KeyOf (relative (logosDir h) localPath).

(** Paths on which [path.resolve] and [path.normalize] are the identity:
    absolute, not the root, and made of plain names, none of them empty,
    [.] or [..].  [__dirname] is such a path, and so is every path the
    scanner builds from it with the names [readdir] returns. *)
Fixpoint hasSlash (s : string) : bool :=
  match s with
  | EmptyString => false
  | String c s' => Ascii.eqb c "/" || hasSlash s'
  end.

Definition plainName (s : string) : bool :=
  negb (String.eqb s "") && negb (String.eqb s ".") && negb (String.eqb s "..")
  && negb (hasSlash s).

Fixpoint splitSlash (s : string) : list string :=
  match s with
  | EmptyString => [EmptyString]
  | String c s' =>
      if Ascii.eqb c "/" then EmptyString :: splitSlash s'
      else match splitSlash s' with
           | x :: xs => String c x :: xs
           | [] => [String c EmptyString]
           end
  end.

Definition resolved (p : string) : bool :=
  match splitSlash p with
  | EmptyString :: first :: names => forallb plainName (first :: names)
  | _ => false
  end.


(** ** [src/lib/data.ts]: the data layer of the site

    [fs.existsSync], [path.join], [process.cwd()] and
    [String.prototype.localeCompare] are taken from the [Site] the code runs
    on.  A [Map] is the list of its entries in insertion order.
    [Array.prototype.sort] is stable; [arraySort] is the stable insertion
    sort, which is its result for a comparator that is a consistent order, as
    [localeCompare] is. *)
Module Data.

Record Logo := mkLogo {
  team_name : string;
  team_slug : string;
  base_name : string;
  png_hash : option string;
  svg_hash : option string;
  country_slug : string;
  team_url : string
}.

Record Settings := mkSettings { format : string; size : N }.

Record Metadata := mkMetadata {
  total_logos : N;
  countries : list string;
  settings : Settings;
  logos : list Logo
}.

Record Site := mkSite {
  cwd : string;
  pathJoin : list string -> string;
  existsSync : string -> bool;
  localeCompare : string -> string -> Z
}.

Record CountryCount := mkCountryCount { slug : string; count : nat }.

(** The path both listing functions test for existence. *)
Definition coloringPagePath (site : Site) (logo : Logo) : string :=
  pathJoin site
    [cwd site; "football_logos"; country_slug logo; "coloring-pages";
     base_name logo ++ "_coloring.svg"].

Definition JsMap : Type := list (string * nat).

Fixpoint mapGet (m : JsMap) (key : string) : option nat :=
  match m with
  | [] => None
  | (k, v) :: rest => if String.eqb k key then Some v else mapGet rest key
  end.

Fixpoint mapSet (m : JsMap) (key : string) (value : nat) : JsMap :=
  match m with
  | [] => [(key, value)]
  | (k, v) :: rest =>
      if String.eqb k key then (k, value) :: rest else (k, v) :: mapSet rest key value
  end.

(** [x || 0] on the result of [Map.prototype.get]. *)
Definition orZero (o : option nat) : nat :=
  match o with
  | Some n => n
  | None => 0
  end.

Fixpoint insertSorted {A} (compare : A -> A -> Z) (x : A) (l : list A) : list A :=
  match l with
  | [] => [x]
  | y :: rest =>
      if (compare x y <=? 0)%Z then x :: y :: rest else y :: insertSorted compare x rest
  end.

Definition arraySort {A} (compare : A -> A -> Z) (l : list A) : list A :=
  fold_right (insertSorted compare) [] l.

(** The body of the [forEach] of [getCountriesWithCounts]. *)
Definition countLogo (site : Site) (countryCounts : JsMap) (logo : Logo) : JsMap :=
  if existsSync site (coloringPagePath site logo)
  then mapSet countryCounts (country_slug logo)
         (orZero (mapGet countryCounts (country_slug logo)) + 1)
  else countryCounts.

Definition getCountriesWithCounts (site : Site) (metadata : Metadata) : list CountryCount :=
  let countryCounts := fold_left (countLogo site) (logos metadata) [] in
  arraySort (fun a b => localeCompare site (slug a) (slug b))
    (List.filter (fun item => (0 <? count item)%nat)
       (List.map (fun entry => {| slug := fst entry; count := snd entry |}) countryCounts)).

Definition getLogosByCountry (site : Site) (metadata : Metadata) (countrySlug : string)
    : list Logo :=
  List.filter
    (fun logo =>
       if negb (String.eqb (country_slug logo) countrySlug) then false
       else existsSync site (coloringPagePath site logo))
    (logos metadata).

Definition getLogoByTeam (metadata : Metadata) (countrySlug teamSlug : string)
    : option Logo :=
  List.find
    (fun logo =>
       String.eqb (country_slug logo) countrySlug && String.eqb (team_slug logo) teamSlug)
    (logos metadata).

Inductive LogoType := original | coloring.

Inductive LogoFormat := svg | png.

Definition formatName (f : LogoFormat) : string :=
  match f with
  | svg => "svg"
  | png => "png"
  end.

Definition getLogoPath (logo : Logo) (type : LogoType) (format : LogoFormat) : string :=
  let baseDir := "/football_logos/" ++ country_slug logo in
  let fileName := base_name logo in
  match type with
  | original =>
      match format with
      | svg => baseDir ++ "/svg/" ++ fileName ++ ".svg"
      | png => baseDir ++ "/png/" ++ fileName ++ ".png"
      end
  | coloring => baseDir ++ "/coloring-pages/" ++ fileName ++ "_coloring." ++ formatName format
  end.

(** A map as the counting loop keeps it: no key twice, every count
    positive. *)
Definition wellFormed (m : JsMap) : Prop :=
  List.NoDup (List.map fst m) /\ forall key value, mapGet m key = Some value -> (0 < value)%nat.

End Data.

(** ** Closed examples for the data layer *)

Definition arsenalLogo : Data.Logo :=
  {| Data.team_name := "Arsenal"; Data.team_slug := "arsenal"; Data.base_name := "arsenal";
     Data.png_hash := None; Data.svg_hash := Some "0a1b";
     Data.country_slug := "england"; Data.team_url := "/england/arsenal/" |}.

Definition ajaxLogo : Data.Logo :=
  {| Data.team_name := "Ajax"; Data.team_slug := "ajax"; Data.base_name := "ajax";
     Data.png_hash := None; Data.svg_hash := None;
     Data.country_slug := "netherlands"; Data.team_url := "/netherlands/ajax/" |}.

Definition sampleMetadata : Data.Metadata :=
  {| Data.total_logos := 2; Data.countries := ["england"; "netherlands"];
     Data.settings := {| Data.format := "svg"; Data.size := 512 |};
     Data.logos := [arsenalLogo; ajaxLogo] |}.

(** A site in which only Arsenal has a coloring page. *)
Definition sampleSite : Data.Site :=
  {| Data.cwd := "/app";
     Data.pathJoin := String.concat "/";
     Data.existsSync :=
       String.eqb "/app/football_logos/england/coloring-pages/arsenal_coloring.svg";
     Data.localeCompare := fun a b =>
       match String.compare a b with Lt => (-1)%Z | Eq => 0%Z | Gt => 1%Z end |}.

(** * Configuration *)

Lemma truthy_ofOption_false (o : option string) :
  truthy (ofOption o) = false <-> isMissing o.
Proof.
  unfold isMissing. destruct o as [s|]; simpl.
  - destruct s; simpl; split; intros H; try discriminate; auto.
    + destruct H as [H|H]; discriminate.
  - split; auto.
Qed.

Lemma In_missing (c : Config) (key : string) :
  In key (missing c) <-> In key required /\ isMissing (configGet c key).
Proof.
  unfold missing. rewrite filter_In, negb_true_iff, truthy_ofOption_false. tauto.
Qed.

Lemma missingLine_inj (v v' : string) : missingLine v = missingLine v' -> v = v'.
Proof. unfold missingLine. simpl. intros H. injection H. auto. Qed.

Lemma In_missingLine_console (c : Config) (p : Process) (v : string) :
  validateConfig c = Some p ->
  In (missingLine v) (console p) <-> exists key, In key (missing c) /\ v = envVar key.
Proof.
  intros Hv.
  assert (Hc : console p =
    app missingHeader (app (List.map (fun key => missingLine (envVar key)) (missing c)) missingFooter)).
  { unfold validateConfig in Hv. destruct (missing c); [discriminate|].
    injection Hv as <-. reflexivity. }
  rewrite Hc, in_app_iff, in_app_iff, in_map_iff. split.
  - intros [H|[H|H]].
    + destruct H as [H|[]]. discriminate H.
    + destruct H as (key & Heq & Hin). exists key. split; [exact Hin|].
      symmetry. apply missingLine_inj. exact Heq.
    + destruct H as [H|[H|[]]]; discriminate H.
  - intros (key & Hin & ->). right. left. exists key. split; [reflexivity|exact Hin].
Qed.

(** The default of [bucketName] makes the fourth value always present in a
    configuration read from the environment. *)
Lemma config_bucketName_present (env : Env) : ~ isMissing (bucketName (config env)).
Proof.
  unfold config, orElse, isMissing. cbn [bucketName].
  destruct (env "R2_BUCKET_NAME") as [[|a s]|]; simpl; intros [H|H]; discriminate.
Qed.

(** C6.  When one of the four required values of the configuration is missing
    (unset or empty), the script stops in [validateConfig]: the world is left
    as it was (nothing is read, no request is sent, no fault is consumed), the
    exit status is 1, and the variable lines of the report are exactly the
    environment-variable names of the missing values. *)
Theorem missing_config_aborts (h : Host) (c : Config) (w : World) :
  isMissing (accountId c) \/ isMissing (accessKeyId c) \/
  isMissing (secretAccessKey c) \/ isMissing (bucketName c) ->
  exists p,
    script h c w = (p, w) /\
    exitCode p = Some 1%nat /\
    forall v,
      In (missingLine v) (console p) <->
      (v = "CLOUDFLARE_ACCOUNT_ID" /\ isMissing (accountId c)) \/
      (v = "R2_ACCESS_KEY_ID" /\ isMissing (accessKeyId c)) \/
      (v = "R2_SECRET_ACCESS_KEY" /\ isMissing (secretAccessKey c)) \/
      (v = "R2_BUCKET_NAME" /\ isMissing (bucketName c)).
Proof.
  intros Hmiss.
  assert (Hne : missing c <> []).
  { intros Hnil.
    assert (Hin : exists key, In key (missing c)).
    { destruct Hmiss as [H|[H|[H|H]]];
        [exists "accountId"|exists "accessKeyId"|exists "secretAccessKey"|exists "bucketName"];
        apply In_missing; (split; [simpl; tauto|exact H]). }
    destruct Hin as [key Hin]. rewrite Hnil in Hin. exact Hin. }
  destruct (validateConfig c) as [p|] eqn:Hv.
  2:{ unfold validateConfig in Hv. destruct (missing c); [congruence|discriminate]. }
  exists p. unfold script. rewrite Hv. split; [reflexivity|]. split.
  { unfold validateConfig in Hv. destruct (missing c); [congruence|].
    injection Hv as <-. reflexivity. }
  intros v. rewrite (In_missingLine_console c p v Hv). split.
  - intros (key & Hin & ->). apply In_missing in Hin. destruct Hin as [Hreq Hm].
    simpl in Hreq. destruct Hreq as [<-|[<-|[<-|[<-|[]]]]]; cbn in Hm |- *; tauto.
  - intros [[-> H]|[[-> H]|[[-> H]|[-> H]]]];
      [exists "accountId"|exists "accessKeyId"|exists "secretAccessKey"|exists "bucketName"];
      (split; [apply In_missing; split; [simpl; tauto|exact H]|reflexivity]).
Qed.

Lemma missing_config_aborts_witness :
  isMissing (accountId (config (fun _ => None))) /\
  exists p, script sampleHost (config (fun _ => None)) emptyWorld = (p, emptyWorld) /\
            exitCode p = Some 1%nat.
Proof.
  assert (H : isMissing (accountId (config (fun _ => None)))) by (left; reflexivity).
  split; [exact H|].
  destruct (missing_config_aborts sampleHost (config (fun _ => None)) emptyWorld
              (or_introl H)) as (p & Hp & Hexit & _).
  exists p. split; [exact Hp|exact Hexit].
Defined.

(** * The operations on the world *)

Lemma getFileHash_eq (h : Host) (p : string) (w : World) :
  getFileHash h p w =
  (match readFile h p with
   | Ok fileBuffer => Ok (md5hex h fileBuffer)
   | Throw e => Throw e
   end, logEvent (EvReadFile p) w).
Proof.
  unfold getFileHash, bind, emit, liftResult, ret.
  destruct (readFile h p); reflexivity.
Qed.

Lemma sendHead_eq (b : option string) (k : string) (w : World) :
  sendHead b k w =
  (match pendingFault w with
   | Some e => Throw e
   | None =>
       match bucket w !! k with
       | Some obj => Ok (ETag obj)
       | None => Throw notFound
       end
   end, consumeFault (logEvent (EvSend (HeadObjectCommand b k)) w)).
Proof.
  unfold sendHead, bind, emit, transport.
  change (pendingFault (logEvent (EvSend (HeadObjectCommand b k)) w)) with (pendingFault w).
  destruct (pendingFault w); [reflexivity|].
  change (bucket (consumeFault (logEvent (EvSend (HeadObjectCommand b k)) w))) with (bucket w).
  destruct (bucket w !! k); reflexivity.
Qed.

Lemma uploadFile_eq (h : Host) (cfg : Config) (p k : string) (w : World) :
  uploadFile h cfg p k w =
  match statSize h p with
  | Throw e => (Throw e, leaveOrphan e (logEvent (EvStat p) w))
  | Ok size =>
      match readFile h p with
      | Throw e => (Throw e, logEvent (EvReadStream p) (logEvent (EvStat p) w))
      | Ok body =>
          let w' :=
            consumeFault
              (logEvent (EvSend (PutObjectCommand (bucketName cfg) k body
                                   (contentTypeOf p) cacheControl))
                 (logEvent (EvReadStream p) (logEvent (EvStat p) w))) in
          match pendingFault w with
          | Some e => (Throw e, w')
          | None => (Ok size, store k (storedObject h body (contentTypeOf p) cacheControl) w')
          end
      end
  end.
Proof.
  unfold uploadFile, bind, emit, liftResult, ret, statAfterStream.
  destruct (statSize h p) as [size|e]; [|reflexivity].
  destruct (readFile h p) as [body|e]; [|reflexivity].
  unfold sendPut, bind, emit, transport.
  match goal with
  | |- context [pendingFault (logEvent ?a (logEvent ?b (logEvent ?c w)))] =>
      change (pendingFault (logEvent a (logEvent b (logEvent c w)))) with (pendingFault w)
  end.
  destruct (pendingFault w); reflexivity.
Qed.

Lemma removeQuotes_hasQuote (s : string) : hasQuote (removeQuotes s) = false.
Proof.
  induction s as [|c s IH]; [reflexivity|]. simpl.
  destruct (isQuote c) eqn:E; [exact IH|]. simpl. rewrite E. exact IH.
Qed.

Lemma removeQuotes_id (s : string) : hasQuote s = false -> removeQuotes s = s.
Proof.
  induction s as [|c s IH]; [reflexivity|]. simpl.
  destruct (isQuote c); [discriminate|]. simpl. intros H. f_equal. exact (IH H).
Qed.

Lemma removeQuotes_app (s t : string) :
  removeQuotes (s ++ t) = removeQuotes s ++ removeQuotes t.
Proof.
  induction s as [|c s IH]; [reflexivity|]. simpl.
  destruct (isQuote c); simpl; rewrite IH; reflexivity.
Qed.

Lemma append_empty_r (s : string) : s ++ "" = s.
Proof.
  induction s as [|c s IH]; [reflexivity|].
  change (String c (s ++ "") = String c s). f_equal. exact IH.
Qed.

Lemma removeQuotes_quoted (s : string) : hasQuote s = false -> removeQuotes (quoted s) = s.
Proof.
  intros H. unfold quoted.
  change (String quoteChar (s ++ String quoteChar "")) with (String quoteChar "" ++ (s ++ String quoteChar "")).
  rewrite !removeQuotes_app. rewrite (removeQuotes_id s H). simpl.
  apply append_empty_r.
Qed.

Lemma getR2FileETag_eq (cfg : Config) (k : string) (w : World) :
  getR2FileETag cfg k w =
  (match pendingFault w with
   | Some e => if String.eqb (name e) "NotFound" then Ok JNull else Throw e
   | None =>
       match bucket w !! k with
       | Some obj => Ok (ofOption (removeQuotes <$> ETag obj))
       | None => Ok JNull
       end
   end, consumeFault (logEvent (EvSend (HeadObjectCommand (bucketName cfg) k)) w)).
Proof.
  unfold getR2FileETag. rewrite sendHead_eq.
  destruct (pendingFault w) as [e|].
  - destruct (String.eqb (name e) "NotFound"); reflexivity.
  - destruct (bucket w !! k); reflexivity.
Qed.

(** * The remote state resolver *)

(** C3.  [getR2FileETag] answers [null] exactly when the request fails with
    an error named [NotFound]; every other failure of the request is thrown
    on unchanged, and then the file ends as a failure carrying the message of
    that error; for an object that is found, the tag returned is the [ETag]
    of the response with every double quote removed. *)
Theorem resolver_absent_iff_not_found (h : Host) (cfg : Config) (localPath : string)
    (w : World) :
  let key := r2KeyOf (relative (logosDir h) localPath) in
  (fst (getR2FileETag cfg key w) = Ok JNull <->
   exists e, fst (sendHead (bucketName cfg) key w) = Throw e /\ name e = "NotFound") /\
  (forall e, fst (sendHead (bucketName cfg) key w) = Throw e -> name e <> "NotFound" ->
     fst (getR2FileETag cfg key w) = Throw e /\
     forall w0 localHash, getFileHash h localPath w0 = (Ok localHash, w) ->
       fst (pipeline h cfg localPath w0) = Failed (message e)) /\
  (forall tag, fst (sendHead (bucketName cfg) key w) = Ok (Some tag) ->
     fst (getR2FileETag cfg key w) = Ok (JString (removeQuotes tag)) /\
     hasQuote (removeQuotes tag) = false).
Proof.
  intros key. unfold getR2FileETag.
  destruct (sendHead (bucketName cfg) key w) as [[etag|e] w'] eqn:Hs; cbn [fst].
  - split; [|split].
    + split.
      * destruct etag; discriminate.
      * intros (e & He & _). discriminate.
    + intros e He. discriminate.
    + intros tag [= ->]. split; [reflexivity|apply removeQuotes_hasQuote].
  - split; [|split].
    + destruct (String.eqb (name e) "NotFound") eqn:E; cbn [fst]; split.
      * intros _. exists e. split; [reflexivity|]. apply String.eqb_eq. exact E.
      * reflexivity.
      * discriminate.
      * intros (e' & [= <-] & Hn). apply String.eqb_eq in Hn. congruence.
    + intros e' [= <-] Hne.
      assert (E : String.eqb (name e) "NotFound" = false) by (apply String.eqb_neq; exact Hne).
      rewrite E. split; [reflexivity|].
      intros w0 localHash Hh. unfold pipeline. rewrite Hh.
      fold key. unfold getR2FileETag. rewrite Hs, E. reflexivity.
    + intros tag. discriminate.
Qed.

(** * One file *)

Lemma syncDecision_Unchanged (localHash : string) (r2Hash : JsValue) :
  syncDecision localHash r2Hash = Unchanged <-> r2Hash = JString localHash.
Proof.
  unfold syncDecision. destruct r2Hash as [| |t]; simpl; try (split; discriminate).
  destruct (String.eqb_spec t localHash) as [->|Hne].
  - split; reflexivity.
  - destruct (negb (t =? "")); split; try discriminate; intros [= ?]; contradiction.
Qed.

Lemma syncDecision_New (localHash : string) (r2Hash : JsValue) :
  syncDecision localHash r2Hash = New <->
  r2Hash <> JString localHash /\
  (r2Hash = JNull \/ r2Hash = JUndefined \/ r2Hash = JString "").
Proof.
  unfold syncDecision. destruct r2Hash as [| |t]; simpl.
  - split; [intros _; split; [discriminate|auto]|reflexivity].
  - split; [intros _; split; [discriminate|auto]|reflexivity].
  - destruct (String.eqb_spec t localHash) as [->|Hne].
    + split; [discriminate|]. intros [H _]. contradiction.
    + destruct (String.eqb_spec t "") as [->|Hne']; simpl.
      * split; [intros _; split; [congruence|auto]|reflexivity].
      * split; [discriminate|]. intros [_ [H|[H|H]]]; try discriminate.
        injection H as ->. contradiction.
Qed.

Lemma syncDecision_Modified (localHash : string) (r2Hash : JsValue) :
  syncDecision localHash r2Hash = Modified <->
  exists tag, r2Hash = JString tag /\ tag <> "" /\ tag <> localHash.
Proof.
  unfold syncDecision. destruct r2Hash as [| |t]; simpl.
  - split; [discriminate|]. intros (tag & H & _). discriminate.
  - split; [discriminate|]. intros (tag & H & _). discriminate.
  - destruct (String.eqb_spec t localHash) as [->|Hne].
    + split; [discriminate|]. intros (tag & [= ->] & _ & H). contradiction.
    + destruct (String.eqb_spec t "") as [->|Hne']; simpl.
      * split; [discriminate|]. intros (tag & [= <-] & H & _). contradiction.
      * split; [|reflexivity]. intros _. exists t. auto.
Qed.

(** The loop body and the pipeline agree: [syncFile] leaves the world the
    pipeline leaves, and moves exactly the counter of the terminal state. *)
Lemma syncFile_pipeline (h : Host) (cfg : Config) (p : string) (st : Run) (w : World) :
  let t := fst (pipeline h cfg p w) in
  let st' := fst (syncFile h cfg p st w) in
  snd (syncFile h cfg p st w) = snd (pipeline h cfg p w) /\
  uploaded st' = (uploaded st + (if isUpload t then 1 else 0))%nat /\
  skipped st' = (skipped st + (if isSkip t then 1 else 0))%nat /\
  totalBytes st' = (totalBytes st + bytesOf t)%N /\
  errors st' = app (errors st) (failureOf h (p, t)).
Proof.
  unfold syncFile, tryFile, pipeline, bind, syncDecision.
  destruct (getFileHash h p w) as [[localHash|e] w1]; cbn [fst snd].
  2:{ unfold failureOf. cbn. rewrite !Nat.add_0_r, N.add_0_r. auto. }
  destruct (getR2FileETag cfg _ w1) as [[r2Hash|e] w2]; cbn [fst snd].
  2:{ unfold failureOf. cbn. rewrite !Nat.add_0_r, N.add_0_r. auto. }
  destruct (strictEqString r2Hash localHash).
  { unfold ret, failureOf. cbn. rewrite Nat.add_0_r, N.add_0_r, app_nil_r.
    repeat split; lia. }
  destruct (truthy r2Hash); unfold uploaded_as;
    (destruct (uploadFile h cfg p _ w2) as [[bytes|e] w3]; unfold ret, failureOf; cbn;
     [rewrite Nat.add_0_r, app_nil_r; repeat split; lia
     |rewrite !Nat.add_0_r, N.add_0_r; auto]).
Qed.

Lemma getR2FileETag_world (cfg : Config) (k : string) (w : World) :
  snd (getR2FileETag cfg k w) = consumeFault (logEvent (headEvent cfg k) w).
Proof. rewrite getR2FileETag_eq. reflexivity. Qed.

Lemma pipeline_Unchanged (h : Host) (cfg : Config) (p : string) (w : World) (bytes : N) :
  fst (pipeline h cfg p w) = Recorded Unchanged bytes ->
  bytes = 0%N /\
  snd (pipeline h cfg p w) =
    consumeFault (logEvent (headEvent cfg (r2KeyOf (relative (logosDir h) p)))
                    (logEvent (EvReadFile p) w)).
Proof.
  unfold pipeline. rewrite getFileHash_eq.
  destruct (readFile h p) as [buf|e]; [|discriminate].
  rewrite <- getR2FileETag_world.
  destruct (getR2FileETag cfg _ _) as [[r2Hash|e] w2]; cbn [fst snd]; [|discriminate].
  destruct (syncDecision (md5hex h buf) r2Hash) eqn:Hd; cbn [fst snd].
  - intros [= <-]. auto.
  - destruct (uploadFile h cfg p _ _) as [[b|e] w3]; cbn; discriminate.
  - destruct (uploadFile h cfg p _ _) as [[b|e] w3]; cbn; discriminate.
Qed.

Lemma pipeline_upload (h : Host) (cfg : Config) (p : string) (w : World)
    (d : SyncDecision) (bytes : N) :
  fst (pipeline h cfg p w) = Recorded d bytes -> d <> Unchanged ->
  statSize h p = Ok bytes /\
  exists body,
    readFile h p = Ok body /\
    bucket (snd (pipeline h cfg p w)) =
      <[r2KeyOf (relative (logosDir h) p) :=
          storedObject h body (contentTypeOf p) cacheControl]> (bucket w).
Proof.
  unfold pipeline. rewrite getFileHash_eq.
  destruct (readFile h p) as [buf|e] eqn:Hr; [|discriminate].
  pose proof (getR2FileETag_world cfg (r2KeyOf (relative (logosDir h) p))
                (logEvent (EvReadFile p) w)) as Hw.
  destruct (getR2FileETag cfg _ _) as [[r2Hash|e] w2]; cbn [fst snd] in *; [|discriminate].
  subst w2.
  assert (Hup : forall d0,
    fst (uploaded_as d0 (uploadFile h cfg p (r2KeyOf (relative (logosDir h) p))
           (consumeFault (logEvent (headEvent cfg (r2KeyOf (relative (logosDir h) p)))
              (logEvent (EvReadFile p) w))))) = Recorded d bytes ->
    statSize h p = Ok bytes /\
    exists body, Ok buf = Ok body /\
      bucket (snd (uploaded_as d0 (uploadFile h cfg p (r2KeyOf (relative (logosDir h) p))
           (consumeFault (logEvent (headEvent cfg (r2KeyOf (relative (logosDir h) p)))
              (logEvent (EvReadFile p) w)))))) =
      <[r2KeyOf (relative (logosDir h) p) :=
          storedObject h body (contentTypeOf p) cacheControl]> (bucket w)).
  { intros d0. rewrite uploadFile_eq.
    destruct (statSize h p) as [size|e]; [|discriminate].
    rewrite Hr. cbv zeta.
    match goal with |- context [pendingFault ?x] => destruct (pendingFault x) end;
      [discriminate|].
    cbn. intros [= _ <-]. split; [reflexivity|]. exists buf. split; reflexivity. }
  destruct (syncDecision (md5hex h buf) r2Hash) eqn:Hd.
  - cbn [fst snd]. intros [= <- _] Hne. contradiction.
  - intros H _. exact (Hup New H).
  - intros H _. exact (Hup Modified H).
Qed.

(** * The loop *)

Lemma outcomes_cons (h : Host) (cfg : Config) (p : string) (rest : list string) (w : World) :
  outcomes h cfg (p :: rest) w =
  ((p, fst (pipeline h cfg p w)) :: fst (outcomes h cfg rest (snd (pipeline h cfg p w))),
   snd (outcomes h cfg rest (snd (pipeline h cfg p w)))).
Proof.
  simpl. destruct (pipeline h cfg p w) as [t w1]. cbn [fst snd].
  destruct (outcomes h cfg rest w1) as [ts w2]. reflexivity.
Qed.

Lemma syncLoop_cons (h : Host) (cfg : Config) (p : string) (rest : list string)
    (st : Run) (w : World) :
  syncLoop h cfg (p :: rest) st w =
  syncLoop h cfg rest (fst (syncFile h cfg p st w)) (snd (syncFile h cfg p st w)).
Proof. simpl. destruct (syncFile h cfg p st w). reflexivity. Qed.

Lemma outcomes_files (h : Host) (cfg : Config) (localFiles : list string) (w : World) :
  List.map fst (fst (outcomes h cfg localFiles w)) = localFiles.
Proof.
  revert w. induction localFiles as [|p rest IH]; intros w; [reflexivity|].
  rewrite outcomes_cons. cbn [fst List.map]. rewrite IH. reflexivity.
Qed.

(** The counters of the loop are the tallies of the terminal states. *)
Lemma syncLoop_outcomes (h : Host) (cfg : Config) (localFiles : list string)
    (st : Run) (w : World) :
  let ts := fst (outcomes h cfg localFiles w) in
  let st' := fst (syncLoop h cfg localFiles st w) in
  snd (syncLoop h cfg localFiles st w) = snd (outcomes h cfg localFiles w) /\
  uploaded st' = (uploaded st + countWhere isUpload ts)%nat /\
  skipped st' = (skipped st + countWhere isSkip ts)%nat /\
  totalBytes st' = (totalBytes st + sumN (List.map (fun o => bytesOf (snd o)) ts))%N /\
  errors st' = app (errors st) (flat_map (failureOf h) ts).
Proof.
  revert st w. induction localFiles as [|p rest IH]; intros st w.
  - cbn. rewrite !Nat.add_0_r, N.add_0_r, app_nil_r. auto.
  - rewrite syncLoop_cons, outcomes_cons. cbn [fst snd].
    destruct (syncFile_pipeline h cfg p st w) as (Hw & Hu & Hs & Hb & He).
    specialize (IH (fst (syncFile h cfg p st w)) (snd (syncFile h cfg p st w))).
    rewrite Hw in IH |- *. destruct IH as (IHw & IHu & IHs & IHb & IHe).
    split; [exact IHw|].
    rewrite IHu, IHs, IHb, IHe, Hu, Hs, Hb, He.
    unfold countWhere. cbn [List.filter List.map flat_map sumN fold_right snd].
    fold (sumN (List.map (fun o => bytesOf (snd o))
                  (fst (outcomes h cfg rest (snd (pipeline h cfg p w)))))).
    destruct (fst (pipeline h cfg p w)) as [[| |] b|msg]; cbn [isUpload isSkip List.length];
      rewrite <- ?app_assoc; repeat split; lia.
Qed.

Lemma terminal_partition (ts : list (string * Terminal)) :
  (countWhere isUpload ts + countWhere isSkip ts + countWhere isFailure ts)%nat
  = List.length ts.
Proof.
  unfold countWhere. induction ts as [|[p t] ts IH]; [reflexivity|].
  cbn [List.filter snd List.length].
  destruct t as [[| |] b|msg]; cbn [isUpload isSkip isFailure List.length]; lia.
Qed.

Lemma failures_length (h : Host) (ts : list (string * Terminal)) :
  List.length (flat_map (failureOf h) ts) = countWhere isFailure ts.
Proof.
  unfold countWhere. induction ts as [|[p t] ts IH]; [reflexivity|].
  cbn [flat_map List.filter snd]. rewrite length_app, IH.
  destruct t as [d b|msg]; reflexivity.
Qed.

Lemma outcomes_length (h : Host) (cfg : Config) (localFiles : list string) (w : World) :
  List.length (fst (outcomes h cfg localFiles w)) = List.length localFiles.
Proof. rewrite <- (outcomes_files h cfg localFiles w) at 2. rewrite length_map. reflexivity. Qed.

(** Every iteration moves exactly one of the three tallies. *)
Lemma loop_counts_total (h : Host) (cfg : Config) (localFiles : list string)
    (out : list (Stream * string)) (w : World) :
  let st := fst (syncLoop h cfg localFiles (initialRun out) w) in
  (uploaded st + skipped st + List.length (errors st))%nat = List.length localFiles.
Proof.
  intros st. subst st.
  destruct (syncLoop_outcomes h cfg localFiles (initialRun out) w) as (_ & Hu & Hs & _ & He).
  rewrite Hu, Hs, He. cbn [initialRun uploaded skipped errors app].
  rewrite failures_length, !Nat.add_0_l, terminal_partition.
  apply outcomes_length.
Qed.


Lemma countWhere_app (f : Terminal -> bool) (a b : list (string * Terminal)) :
  countWhere f (app a b) = (countWhere f a + countWhere f b)%nat.
Proof. unfold countWhere. rewrite List.filter_app, length_app. reflexivity. Qed.

Lemma countWhere_cons (f : Terminal -> bool) (o : string * Terminal)
    (ts : list (string * Terminal)) :
  countWhere f (o :: ts) = ((if f (snd o) then 1 else 0) + countWhere f ts)%nat.
Proof. unfold countWhere. cbn [List.filter]. destruct (f (snd o)); reflexivity. Qed.

Lemma sumN_app (a b : list N) : sumN (app a b) = (sumN a + sumN b)%N.
Proof.
  induction a as [|x a IH]; [reflexivity|].
  cbn [app sumN fold_right]. fold (sumN (app a b)) (sumN a). rewrite IH. lia.
Qed.

Lemma no_failure_entries (h : Host) (ts : list (string * Terminal)) :
  countWhere isFailure ts = 0%nat -> flat_map (failureOf h) ts = [].
Proof.
  intros H. rewrite <- (failures_length h) in H.
  destruct (flat_map (failureOf h) ts); [reflexivity|discriminate].
Qed.

(** * Read streams left without consumer *)

Lemma uploadFile_orphan (h : Host) (cfg : Config) (p k : string) (w : World) :
  orphan (snd (uploadFile h cfg p k w)) =
  match orphan w with
  | Some first => Some first
  | None => match statSize h p with Throw e => Some e | Ok _ => None end
  end.
Proof.
  rewrite uploadFile_eq.
  destruct (statSize h p) as [size|e].
  - destruct (readFile h p) as [body|e]; cbv zeta.
    + destruct (pendingFault w); cbn; destruct (orphan w); reflexivity.
    + cbn. destruct (orphan w); reflexivity.
  - cbn. destruct (orphan w); reflexivity.
Qed.

(** One file either leaves the left-over stream of the world as it is, or
    it is the first to leave one: then [statSync] threw on it and the file
    ends as a failure with that message. *)
Lemma pipeline_orphan (h : Host) (cfg : Config) (p : string) (w : World) :
  orphan (snd (pipeline h cfg p w)) = orphan w \/
  orphan w = None /\
  exists e, statSize h p = Throw e /\
    orphan (snd (pipeline h cfg p w)) = Some e /\
    fst (pipeline h cfg p w) = Failed (message e).
Proof.
  unfold pipeline. rewrite getFileHash_eq.
  destruct (readFile h p) as [buf|e]; [|left; reflexivity].
  pose proof (getR2FileETag_world cfg (r2KeyOf (relative (logosDir h) p))
                (logEvent (EvReadFile p) w)) as Hw.
  destruct (getR2FileETag cfg _ _) as [[r2Hash|e] w2]; cbn [fst snd] in *; subst w2;
    [|left; reflexivity].
  assert (Hup : forall d0 w0, orphan w0 = orphan w ->
    let r := uploaded_as d0 (uploadFile h cfg p (r2KeyOf (relative (logosDir h) p)) w0) in
    orphan (snd r) = orphan w \/
    orphan w = None /\
    exists e, statSize h p = Throw e /\ orphan (snd r) = Some e /\ fst r = Failed (message e)).
  { intros d0 w0 Hw0 r. subst r.
    pose proof (uploadFile_orphan h cfg p (r2KeyOf (relative (logosDir h) p)) w0) as Ho.
    pose proof (uploadFile_eq h cfg p (r2KeyOf (relative (logosDir h) p)) w0) as Heq.
    destruct (uploadFile h cfg p _ w0) as [r w3]. cbn [snd] in Ho.
    rewrite Hw0 in Ho.
    assert (Hsnd : forall d t, snd (uploaded_as d (t, w3)) = w3)
      by (intros d [b|e]; reflexivity).
    rewrite Hsnd.
    destruct (orphan w) as [first|] eqn:Hfirst; [left; exact Ho|].
    destruct (statSize h p) as [size|e]; [left; exact Ho|].
    right. split; [reflexivity|]. exists e. split; [reflexivity|]. split; [exact Ho|].
    injection Heq as -> _. reflexivity. }
  destruct (syncDecision (md5hex h buf) r2Hash).
  - left. reflexivity.
  - apply Hup. reflexivity.
  - apply Hup. reflexivity.
Qed.

Lemma pipeline_orphan_kept (h : Host) (cfg : Config) (p : string) (w : World) (e : JsError) :
  orphan w = Some e -> orphan (snd (pipeline h cfg p w)) = Some e.
Proof.
  intros Ho. destruct (pipeline_orphan h cfg p w) as [H|[H _]]; congruence.
Qed.

Lemma outcomes_orphan_kept (h : Host) (cfg : Config) (localFiles : list string)
    (w : World) (e : JsError) :
  orphan w = Some e -> orphan (snd (outcomes h cfg localFiles w)) = Some e.
Proof.
  revert w. induction localFiles as [|p rest IH]; intros w Ho; [exact Ho|].
  rewrite outcomes_cons. cbn [snd]. apply IH, pipeline_orphan_kept, Ho.
Qed.

(** A stream is only left over by a file on which [statSync] throws; that
    file ends as a failure. *)
Lemma outcomes_orphan_new (h : Host) (cfg : Config) (localFiles : list string)
    (w : World) (e : JsError) :
  orphan w = None -> orphan (snd (outcomes h cfg localFiles w)) = Some e ->
  exists p, In (p, Failed (message e)) (fst (outcomes h cfg localFiles w)) /\
            statSize h p = Throw e.
Proof.
  revert w. induction localFiles as [|p rest IH]; intros w Ho Hend.
  - cbn in Hend. congruence.
  - rewrite outcomes_cons in Hend |- *. cbn [fst snd] in *.
    destruct (pipeline_orphan h cfg p w) as [H|(_ & e' & Hstat & Hnew & Hfail)].
    + rewrite Ho in H. destruct (IH _ H Hend) as (q & Hin & Hq).
      exists q. split; [right; exact Hin|exact Hq].
    + rewrite (outcomes_orphan_kept h cfg rest _ e' Hnew) in Hend.
      injection Hend as ->. exists p. split; [left; rewrite Hfail; reflexivity|exact Hstat].
Qed.

Lemma syncLoop_world_outcomes (h : Host) (cfg : Config) (localFiles : list string)
    (st : Run) (w : World) :
  snd (syncLoop h cfg localFiles st w) = snd (outcomes h cfg localFiles w).
Proof. exact (proj1 (syncLoop_outcomes h cfg localFiles st w)). Qed.

Lemma syncFile_orphan_kept (h : Host) (cfg : Config) (p : string) (st : Run) (w : World)
    (e : JsError) :
  orphan w = Some e -> orphan (snd (syncFile h cfg p st w)) = Some e.
Proof.
  intros Ho. rewrite (proj1 (syncFile_pipeline h cfg p st w)).
  apply pipeline_orphan_kept, Ho.
Qed.

(** The process runs the iterations of an initial part of the files: all of
    them unless a stream is left over. *)
Lemma liveLoop_processed (h : Host) (cfg : Config) (localFiles : list string)
    (st : Run) (w : World) :
  exists processed,
    localFiles = app processed (snd (liveLoop h cfg localFiles st w)) /\
    fst (liveLoop h cfg localFiles st w) = syncLoop h cfg processed st w /\
    (orphan (snd (fst (liveLoop h cfg localFiles st w))) = None ->
     snd (liveLoop h cfg localFiles st w) = []).
Proof.
  revert st w. induction localFiles as [|p rest IH]; intros st w.
  - exists []. repeat split.
  - cbn [liveLoop]. destruct (orphan w) as [e|] eqn:Ho.
    + exists []. cbn [fst snd app syncLoop]. repeat split. intros H. congruence.
    + destruct (syncFile h cfg p st w) as [st1 w1] eqn:Hfile.
      destruct (IH st1 w1) as (processed & Hsplit & Hloop & Hnone).
      exists (p :: processed). cbn [app syncLoop]. rewrite Hfile.
      split; [f_equal; exact Hsplit|]. split; [exact Hloop|exact Hnone].
Qed.

(** While no stream is left over, the process runs every iteration. *)
Lemma liveLoop_all (h : Host) (cfg : Config) (localFiles : list string)
    (st : Run) (w : World) :
  orphan (snd (syncLoop h cfg localFiles st w)) = None ->
  liveLoop h cfg localFiles st w = (syncLoop h cfg localFiles st w, []).
Proof.
  revert st w. induction localFiles as [|p rest IH]; intros st w Hnone; [reflexivity|].
  rewrite syncLoop_cons in Hnone |- *. cbn [liveLoop].
  destruct (orphan w) as [e|] eqn:Ho.
  - rewrite <- syncLoop_cons, syncLoop_world_outcomes in Hnone.
    rewrite (outcomes_orphan_kept h cfg _ w e Ho) in Hnone. discriminate.
  - destruct (syncFile h cfg p st w) as [st1 w1]. cbn [fst snd] in *. apply IH, Hnone.
Qed.

Lemma In_failure_counted (ts : list (string * Terminal)) (p msg : string) :
  In (p, Failed msg) ts -> (0 < countWhere isFailure ts)%nat.
Proof.
  unfold countWhere. induction ts as [|[q t] ts IH]; intros Hin; [destruct Hin|].
  cbn [List.filter snd]. destruct Hin as [[= -> ->]|Hin].
  - cbn. lia.
  - specialize (IH Hin). destruct (isFailure t); cbn [List.length]; lia.
Qed.

(** Failure isolation holds of every failure that leaves no stream behind:
    a file that cannot be read, a request that fails.  When exactly one file
    of the run ends as a failure and that file can be measured, the process
    runs every iteration, the uploaded and skipped counts add up to the
    number of files minus one, the failure list is the single entry naming
    that file, and the counts and the byte total are those of the other
    files alone. *)
Lemma consumed_failure_isolated (h : Host) (cfg : Config) (localFiles : list string)
    (out : list (Stream * string)) (w : World)
    (pre post : list (string * Terminal)) (p msg : string) (size : N) :
  fst (outcomes h cfg localFiles w) = app pre ((p, Failed msg) :: post) ->
  countWhere isFailure (app pre post) = 0%nat ->
  orphan w = None -> statSize h p = Ok size ->
  exists st w',
    liveLoop h cfg localFiles (initialRun out) w = (st, w', []) /\
    orphan w' = None /\
    localFiles = app (List.map fst pre) (p :: List.map fst post) /\
    (uploaded st + skipped st)%nat = (List.length localFiles - 1)%nat /\
    errors st = [{| file := relative (logosDir h) p; error := msg |}] /\
    uploaded st = countWhere isUpload (app pre post) /\
    skipped st = countWhere isSkip (app pre post) /\
    totalBytes st = sumN (List.map (fun o => bytesOf (snd o)) (app pre post)).
Proof.
  intros Hts Hnone Ho Hsize.
  assert (Hend : orphan (snd (syncLoop h cfg localFiles (initialRun out) w)) = None).
  { rewrite syncLoop_world_outcomes.
    destruct (orphan (snd (outcomes h cfg localFiles w))) as [e|] eqn:He; [|reflexivity].
    exfalso. destruct (outcomes_orphan_new h cfg localFiles w e Ho He) as (q & Hin & Hq).
    rewrite Hts in Hin. apply in_app_or in Hin.
    rewrite countWhere_app in Hnone.
    destruct Hin as [Hin|[[= -> _]|Hin]].
    - apply In_failure_counted in Hin. lia.
    - congruence.
    - apply In_failure_counted in Hin. lia. }
  exists (fst (syncLoop h cfg localFiles (initialRun out) w)),
         (snd (syncLoop h cfg localFiles (initialRun out) w)).
  split; [rewrite (liveLoop_all _ _ _ _ _ Hend), <- surjective_pairing; reflexivity|].
  split; [exact Hend|].
  destruct (syncLoop_outcomes h cfg localFiles (initialRun out) w) as (_ & Hu & Hs & Hb & He).
  pose proof (outcomes_files h cfg localFiles w) as Hfiles.
  pose proof (terminal_partition (app pre post)) as Hpart.
  rewrite Hts in Hu, Hs, Hb, He, Hfiles.
  rewrite countWhere_app, countWhere_cons in Hu, Hs.
  rewrite countWhere_app in Hnone.
  cbn [snd isUpload isSkip initialRun uploaded skipped totalBytes errors app] in Hu, Hs, Hb, He.
  rewrite List.map_app in Hfiles, Hb. cbn [List.map fst snd bytesOf] in Hfiles, Hb.
  rewrite flat_map_app in He. cbn [flat_map] in He.
  rewrite (no_failure_entries h pre), (no_failure_entries h post) in He by lia.
  rewrite sumN_app in Hb. cbn [sumN fold_right] in Hb.
  fold (sumN (List.map (fun o => bytesOf (snd o)) post)) in Hb.
  rewrite !countWhere_app, List.map_app, sumN_app.
  rewrite !countWhere_app, length_app in Hpart.
  split; [symmetry; exact Hfiles|].
  assert (Hlen : List.length localFiles = (List.length pre + S (List.length post))%nat).
  { rewrite <- Hfiles, length_app. cbn [List.length]. rewrite !length_map. reflexivity. }
  rewrite Hlen, Hu, Hs, Hb, He.
  split; [lia|]. split; [reflexivity|]. repeat split; lia.
Qed.

(** C4.  Failure isolation does not hold of a file that [uploadFile] cannot
    measure.  On [vanishingHost] the scanner returns two files and exactly
    one of them, the first, ends as a failure; the second would be uploaded.
    The failure is recorded, but the process then ends with status 1 on the
    error of the read stream of line 106: the second file is never
    processed (no input or output is performed for it and the bucket stays
    empty) and no summary is printed. *)
Theorem stat_failure_ends_run :
  let files := [arsenal; chelsea] in
  let run := syncToR2 vanishingHost sampleConfig emptyWorld in
  getFiles (logosDir vanishingHost) (logosListing vanishingHost) [] = Ok files /\
  fst (outcomes vanishingHost sampleConfig files emptyWorld) =
    [(arsenal, Failed (message enoent)); (chelsea, Recorded New 1)] /\
  (exists st,
     liveLoop vanishingHost sampleConfig files (initialRun []) emptyWorld =
       (st, snd run, [chelsea]) /\
     uploaded st = 0%nat /\ skipped st = 0%nat /\
     errors st = [{| file := "england/Arsenal.svg"; error := message enoent |}]) /\
  trace (snd run) =
    [EvReadFile arsenal;
     headEvent sampleConfig "football_logos/england/Arsenal.svg";
     EvStat arsenal] /\
  bucket (snd run) = ∅ /\
  orphan (snd run) = Some enoent /\
  exitCode (fst run) = Some 1%nat /\
  console (fst run) =
    app (banner sampleConfig)
      [foundLine files;
       (Stderr, "❌ Error: england/Arsenal.svg - " ++ message enoent);
       (Stderr, "Unhandled 'error' event: " ++ message enoent)].
Proof.
  intros files run. subst files run.
  split; [reflexivity|]. split; [reflexivity|].
  split; [eexists; split; [reflexivity|]; repeat split|].
  repeat split.
Qed.

(** A file that was uploaded transfers the size [statSync] reports; every
    other terminal state transfers nothing. *)
Lemma pipeline_bytes (h : Host) (cfg : Config) (p : string) (w : World) :
  bytesOf (fst (pipeline h cfg p w)) =
  if isUpload (fst (pipeline h cfg p w)) then sizeOf h p else 0%N.
Proof.
  destruct (fst (pipeline h cfg p w)) as [d b|msg] eqn:Ht; [|reflexivity].
  destruct d.
  - apply pipeline_Unchanged in Ht. destruct Ht as [-> _]. reflexivity.
  - apply pipeline_upload in Ht; [|discriminate]. destruct Ht as [Hs _].
    unfold sizeOf. rewrite Hs. reflexivity.
  - apply pipeline_upload in Ht; [|discriminate]. destruct Ht as [Hs _].
    unfold sizeOf. rewrite Hs. reflexivity.
Qed.

Lemma outcomes_bytes (h : Host) (cfg : Config) (localFiles : list string) (w : World) :
  List.map (fun o => bytesOf (snd o)) (fst (outcomes h cfg localFiles w)) =
  List.map (fun o => if isUpload (snd o) then sizeOf h (fst o) else 0%N)
    (fst (outcomes h cfg localFiles w)).
Proof.
  revert w. induction localFiles as [|p rest IH]; intros w; [reflexivity|].
  rewrite outcomes_cons. cbn [fst snd List.map]. rewrite IH, pipeline_bytes. reflexivity.
Qed.

(** C7.  The byte total of a run is the sum of the sizes of the files whose
    terminal state is an upload (classified [New] or [Modified], upload
    succeeded); a file classified [Unchanged] transfers zero bytes, and all
    the input/output done for it is the one read for its digest and the
    [HeadObject] request: the bucket is left as it was. *)
Theorem total_bytes_accounting (h : Host) (cfg : Config) (localFiles : list string)
    (out : list (Stream * string)) (w : World) :
  totalBytes (fst (syncLoop h cfg localFiles (initialRun out) w)) =
    sumN (List.map (fun o => if isUpload (snd o) then sizeOf h (fst o) else 0%N)
            (fst (outcomes h cfg localFiles w))) /\
  forall (p : string) (bytes : N) (w0 : World),
    fst (pipeline h cfg p w0) = Recorded Unchanged bytes ->
    bytes = 0%N /\
    trace (snd (pipeline h cfg p w0)) =
      app (trace w0) [EvReadFile p; headEvent cfg (r2KeyOf (relative (logosDir h) p))] /\
    bucket (snd (pipeline h cfg p w0)) = bucket w0.
Proof.
  split.
  - destruct (syncLoop_outcomes h cfg localFiles (initialRun out) w) as (_ & _ & _ & Hb & _).
    rewrite Hb, outcomes_bytes. cbn [initialRun totalBytes]. lia.
  - intros p bytes w0 Ht. apply pipeline_Unchanged in Ht. destruct Ht as [-> ->].
    split; [reflexivity|]. split; [|reflexivity].
    cbn [consumeFault logEvent trace]. rewrite <- app_assoc. reflexivity.
Qed.

(** * The sync decision *)

(** C1 (amended).  For a file whose digest and remote tag were obtained, the
    decision depends on these two values only.  It is [Unchanged] exactly
    when the tag is the digest; then the file is counted as skipped and
    nothing is done beyond the read for the digest and the lookup.  It is
    [New] exactly when the tag differs and is falsy: the object was not found
    ([null]), or it was found with no [ETag] or with an empty one.  It is
    [Modified] exactly when the tag is a non-empty string other than the
    digest.  In the last two cases [uploadFile] is called, and the label
    printed after a successful upload is the one of the decision. *)
Theorem decision_of_digests (h : Host) (cfg : Config) (localPath : string)
    (st : Run) (w w1 w2 : World) (localHash : string) (r2Hash : JsValue) :
  let relativePath := relative (logosDir h) localPath in
  getFileHash h localPath w = (Ok localHash, w1) ->
  getR2FileETag cfg (r2KeyOf relativePath) w1 = (Ok r2Hash, w2) ->
  let d := syncDecision localHash r2Hash in
  (d = Unchanged <-> r2Hash = JString localHash) /\
  (d = New <->
     r2Hash <> JString localHash /\
     (r2Hash = JNull \/ r2Hash = JUndefined \/ r2Hash = JString "")) /\
  (d = Modified <-> exists tag, r2Hash = JString tag /\ tag <> "" /\ tag <> localHash) /\
  (d = Unchanged ->
     pipeline h cfg localPath w = (Recorded Unchanged 0, w2) /\
     bucket w2 = bucket w /\
     trace w2 = app (trace w) [EvReadFile localPath; headEvent cfg (r2KeyOf relativePath)]) /\
  (d <> Unchanged ->
     pipeline h cfg localPath w =
       uploaded_as d (uploadFile h cfg localPath (r2KeyOf relativePath) w2)) /\
  (forall bytes, fst (pipeline h cfg localPath w) = Recorded d bytes ->
     output (fst (syncFile h cfg localPath st w)) =
       app (output st) [decisionLine d relativePath]).
Proof.
  intros relativePath Hh Hr d.
  split; [apply syncDecision_Unchanged|].
  split; [apply syncDecision_New|].
  split; [apply syncDecision_Modified|].
  assert (Hw2 : w2 = consumeFault (logEvent (headEvent cfg (r2KeyOf relativePath))
                                     (logEvent (EvReadFile localPath) w))).
  { rewrite getFileHash_eq in Hh. injection Hh as _ <-.
    rewrite getR2FileETag_eq in Hr. injection Hr as _ <-. reflexivity. }
  split; [|split].
  - intros Hd. unfold pipeline. fold relativePath. rewrite Hh, Hr. fold d. rewrite Hd.
    split; [reflexivity|]. rewrite Hw2. split; [reflexivity|].
    cbn [consumeFault logEvent trace]. rewrite <- app_assoc. reflexivity.
  - intros Hd. unfold pipeline. fold relativePath. rewrite Hh, Hr. fold d.
    destruct d; [contradiction|reflexivity|reflexivity].
  - intros bytes. unfold pipeline, syncFile, tryFile, bind. fold relativePath.
    rewrite Hh, Hr. fold d. subst d. unfold syncDecision, decisionLine.
    destruct (strictEqString r2Hash localHash); [reflexivity|].
    destruct (truthy r2Hash);
      (destruct (uploadFile h cfg localPath (r2KeyOf relativePath) w2) as [[b|e] w3];
       cbn; [reflexivity|discriminate]).
Qed.

Lemma decision_of_digests_witness :
  let w1 := snd (getFileHash sampleHost arsenal emptyWorld) in
  let key := r2KeyOf (relative (logosDir sampleHost) arsenal) in
  let w2 := snd (getR2FileETag sampleConfig key w1) in
  getFileHash sampleHost arsenal emptyWorld = (Ok "010203", w1) /\
  getR2FileETag sampleConfig key w1 = (Ok JNull, w2) /\
  pipeline sampleHost sampleConfig arsenal emptyWorld =
    uploaded_as New (uploadFile sampleHost sampleConfig arsenal key w2).
Proof.
  intros w1 key w2.
  assert (H1 : getFileHash sampleHost arsenal emptyWorld = (Ok "010203", w1))
    by reflexivity.
  assert (H2 : getR2FileETag sampleConfig key w1 = (Ok JNull, w2)) by reflexivity.
  split; [exact H1|]. split; [exact H2|].
  destruct (decision_of_digests sampleHost sampleConfig arsenal (initialRun [])
              emptyWorld w1 w2 "010203" JNull H1 H2) as (_ & _ & _ & _ & Hup & _).
  apply Hup. discriminate.
Defined.

(** C1, as stated, fails: an object that exists in the bucket but whose
    [HeadObject] response carries no [ETag] is classified [New], although
    the resolver did not report absence. *)
Lemma new_without_absence :
  is_Some (bucket untaggedWorld !! r2KeyOf (relative (logosDir sampleHost) arsenal)) /\
  fst (pipeline sampleHost sampleConfig arsenal untaggedWorld) = Recorded New 3 /\
  ~ newIffAbsent sampleHost sampleConfig arsenal untaggedWorld.
Proof.
  split; [eexists; reflexivity|]. split; [reflexivity|].
  intros H.
  specialize (H "010203" JUndefined
                (snd (getFileHash sampleHost arsenal untaggedWorld))
                (snd (getR2FileETag sampleConfig
                        (r2KeyOf (relative (logosDir sampleHost) arsenal))
                        (snd (getFileHash sampleHost arsenal untaggedWorld))))
                eq_refl eq_refl).
  destruct H as [H _]. discriminate (H eq_refl).
Qed.

(** * The scanner *)

Lemma Dirent_nested_ind (P : Dirent -> Prop) :
  (forall entryName, P (FileEntry entryName)) ->
  (forall entryName e, P (DirEntry entryName (Throw e))) ->
  (forall entryName files, Forall P files -> P (DirEntry entryName (Ok files))) ->
  forall d, P d.
Proof.
  intros Hfile Hthrow Hdir. fix IH 1. intros [entryName|entryName [files|e]].
  - apply Hfile.
  - apply Hdir. induction files as [|f files IHfiles]; constructor; [apply IH|exact IHfiles].
  - apply Hthrow.
Qed.

(** The directory case of the loop body is the recursive call. *)
Lemma visitEntry_dir (dir entryName : string) (listing : result (list Dirent))
    (fileList : list string) :
  visitEntry dir (DirEntry entryName listing) fileList =
  getFiles (join dir entryName) listing fileList.
Proof.
  unfold getFiles. cbn [visitEntry]. destruct listing as [files|e]; [|reflexivity].
  revert fileList. induction files as [|f files IH]; intros fileList; [reflexivity|].
  cbn [visitEntries]. destruct (visitEntry (join dir entryName) f fileList); [apply IH|reflexivity].
Qed.

Lemma string_app_assoc (a b c : string) : (a ++ b) ++ c = a ++ (b ++ c).
Proof.
  induction a as [|x a IH]; [reflexivity|].
  change (String x ((a ++ b) ++ c) = String x (a ++ (b ++ c))). f_equal. exact IH.
Qed.

Lemma stripPrefix_app (a x : string) : stripPrefix a (a ++ x) = Some x.
Proof.
  induction a as [|c a IH]; [destruct x; reflexivity|].
  change (stripPrefix (String c a) (String c (a ++ x)) = Some x).
  cbn [stripPrefix]. rewrite Ascii.eqb_refl. exact IH.
Qed.

Lemma relative_under (root p : string) :
  underDir root p -> p = root ++ "/" ++ relative root p.
Proof.
  intros [x ->]. unfold relative.
  rewrite <- (string_app_assoc root "/" x), stripPrefix_app. apply string_app_assoc.
Qed.

Lemma relative_inj (root p q : string) :
  underDir root p -> underDir root q -> relative root p = relative root q -> p = q.
Proof.
  intros Hp Hq H. rewrite (relative_under root p Hp), (relative_under root q Hq), H.
  reflexivity.
Qed.

Lemma visitEntry_under (root : string) (file : Dirent) :
  forall dir fileList fileList',
    (exists y, dir ++ "/" = root ++ "/" ++ y) ->
    Forall (underDir root) fileList ->
    visitEntry dir file fileList = Ok fileList' ->
    Forall (underDir root) fileList'.
Proof.
  induction file as [entryName|entryName e|entryName files IH] using Dirent_nested_ind;
    intros dir fileList fileList' [y Hy] Hfl.
  - cbn [visitEntry]. destruct (matchesAllowlist entryName); intros [= <-]; [|exact Hfl].
    apply Forall_app. split; [exact Hfl|]. constructor; [|constructor].
    exists (y ++ entryName). unfold join.
    rewrite <- (string_app_assoc dir "/" entryName), Hy.
    rewrite <- (string_app_assoc root "/" (y ++ entryName)).
    rewrite <- (string_app_assoc (root ++ "/") y entryName).
    rewrite (string_app_assoc root "/" y). reflexivity.
  - cbn [visitEntry]. discriminate.
  - rewrite visitEntry_dir. cbn [getFiles].
    assert (Hsub : exists y', join dir entryName ++ "/" = root ++ "/" ++ y').
    { exists (y ++ entryName ++ "/"). unfold join.
      rewrite <- (string_app_assoc dir "/" entryName), Hy.
      rewrite !string_app_assoc. reflexivity. }
    revert fileList Hfl. induction IH as [|f files Hf _ IHfiles]; intros fileList Hfl.
    + intros [= <-]. exact Hfl.
    + cbn [visitEntries].
      destruct (visitEntry (join dir entryName) f fileList) as [fl1|e] eqn:Hv; [|discriminate].
      apply IHfiles. exact (Hf _ _ _ Hsub Hfl Hv).
Qed.

Lemma getFiles_under (root : string) (listing : result (list Dirent))
    (localFiles : list string) :
  getFiles root listing [] = Ok localFiles -> Forall (underDir root) localFiles.
Proof.
  intros H.
  assert (Hd : forall d fl, Forall (underDir root) fl ->
            getFiles root listing fl = Ok d -> Forall (underDir root) d).
  { clear H localFiles. destruct listing as [files|e]; [|discriminate]. cbn [getFiles].
    induction files as [|f files IH]; intros d fl Hfl.
    - intros [= <-]. exact Hfl.
    - cbn [visitEntries]. destruct (visitEntry root f fl) as [fl1|e] eqn:Hv; [|discriminate].
      apply IH. apply (visitEntry_under root f root fl fl1); [|exact Hfl|exact Hv].
      exists "". reflexivity. }
  apply (Hd localFiles []); [constructor|exact H].
Qed.

(** * Two runs in a row *)

Lemma hexDigit_not_quote (n : N) : isQuote (hexDigit n) = false.
Proof.
  unfold hexDigit. generalize (N.to_nat n). intros k.
  do 16 (destruct k as [|k]; [reflexivity|]). destruct k; reflexivity.
Qed.

Lemma hex_hasQuote (bs : list byte) : hasQuote (hex bs) = false.
Proof.
  induction bs as [|b bs IH]; [reflexivity|].
  cbn [hex hasQuote]. rewrite !hexDigit_not_quote, IH. reflexivity.
Qed.

Lemma storedObject_tag (h : Host) (body : list byte) (ct cc : string) :
  removeQuotes <$> ETag (storedObject h body ct cc) = Some (md5hex h body).
Proof.
  cbn. f_equal. apply removeQuotes_quoted. apply hex_hasQuote.
Qed.

(** What a pipeline does to the bucket: nothing, or one [PutObject] of the
    local bytes under the key of the file. *)
Lemma pipeline_bucket (h : Host) (cfg : Config) (q : string) (w : World) :
  bucket (snd (pipeline h cfg q w)) = bucket w \/
  exists body,
    readFile h q = Ok body /\
    bucket (snd (pipeline h cfg q w)) =
      <[r2KeyOf (relative (logosDir h) q) :=
          storedObject h body (contentTypeOf q) cacheControl]> (bucket w).
Proof.
  destruct (fst (pipeline h cfg q w)) as [d b|msg] eqn:Ht.
  - destruct d.
    + left. apply pipeline_Unchanged in Ht. destruct Ht as [_ ->]. reflexivity.
    + right. apply pipeline_upload in Ht; [|discriminate]. destruct Ht as [_ H]. exact H.
    + right. apply pipeline_upload in Ht; [|discriminate]. destruct Ht as [_ H]. exact H.
  - left. revert Ht. unfold pipeline. rewrite getFileHash_eq.
    destruct (readFile h q) as [buf|e] eqn:Hr; [|reflexivity].
    pose proof (getR2FileETag_world cfg (r2KeyOf (relative (logosDir h) q))
                  (logEvent (EvReadFile q) w)) as Hw.
    destruct (getR2FileETag cfg _ _) as [[r2Hash|e] w2]; cbn [fst snd] in *; subst w2;
      [|reflexivity].
    assert (Hup : forall d0,
      fst (uploaded_as d0 (uploadFile h cfg q (r2KeyOf (relative (logosDir h) q))
             (consumeFault (logEvent (headEvent cfg (r2KeyOf (relative (logosDir h) q)))
                (logEvent (EvReadFile q) w))))) = Failed msg ->
      bucket (snd (uploaded_as d0 (uploadFile h cfg q (r2KeyOf (relative (logosDir h) q))
             (consumeFault (logEvent (headEvent cfg (r2KeyOf (relative (logosDir h) q)))
                (logEvent (EvReadFile q) w)))))) = bucket w).
    { intros d0. rewrite uploadFile_eq.
      destruct (statSize h q) as [size|e]; [|reflexivity].
      rewrite Hr. cbv zeta.
      match goal with |- context [pendingFault ?x] => destruct (pendingFault x) end;
        [reflexivity|discriminate]. }
    destruct (syncDecision (md5hex h buf) r2Hash); [discriminate|apply Hup|apply Hup].
Qed.

Lemma pipeline_faults (h : Host) (cfg : Config) (q : string) (w : World) :
  exists n, faults (snd (pipeline h cfg q w)) = drop n (faults w).
Proof.
  unfold pipeline. rewrite getFileHash_eq.
  destruct (readFile h q) as [buf|e] eqn:Hr; [|exists 0%nat; reflexivity].
  pose proof (getR2FileETag_world cfg (r2KeyOf (relative (logosDir h) q))
                (logEvent (EvReadFile q) w)) as Hw.
  destruct (getR2FileETag cfg _ _) as [[r2Hash|e] w2]; cbn [fst snd] in *; subst w2;
    [|exists 1%nat; cbn; destruct (faults w); reflexivity].
  assert (Hup : forall d0, exists n,
    faults (snd (uploaded_as d0 (uploadFile h cfg q (r2KeyOf (relative (logosDir h) q))
           (consumeFault (logEvent (headEvent cfg (r2KeyOf (relative (logosDir h) q)))
              (logEvent (EvReadFile q) w)))))) = drop n (faults w)).
  { intros d0. rewrite uploadFile_eq.
    destruct (statSize h q) as [size|e]; [|exists 1%nat; cbn; destruct (faults w); reflexivity].
    rewrite Hr. cbv zeta.
    match goal with |- context [pendingFault ?x] => destruct (pendingFault x) end;
      exists 2%nat; cbn; destruct (faults w) as [|? [|? ?]]; reflexivity. }
  destruct (syncDecision (md5hex h buf) r2Hash);
    [exists 1%nat; cbn; destruct (faults w); reflexivity|apply Hup|apply Hup].
Qed.

Lemma pipeline_noSpurious (h : Host) (cfg : Config) (q : string) (w : World) :
  noSpuriousNotFound (faults w) -> noSpuriousNotFound (faults (snd (pipeline h cfg q w))).
Proof.
  intros H. destruct (pipeline_faults h cfg q w) as [n ->]. apply Forall_drop. exact H.
Qed.

(** A file that reached [Recorded] is in sync afterwards. *)
Lemma pipeline_synced (h : Host) (cfg : Config) (p : string) (w : World)
    (d : SyncDecision) (b : N) :
  fst (pipeline h cfg p w) = Recorded d b ->
  synced h (bucket (snd (pipeline h cfg p w))) p.
Proof.
  intros Ht.
  assert (Hup : d <> Unchanged -> synced h (bucket (snd (pipeline h cfg p w))) p).
  { intros Hd. destruct (pipeline_upload h cfg p w d b Ht Hd) as (_ & body & Hr & ->).
    exists body, (storedObject h body (contentTypeOf p) cacheControl).
    split; [exact Hr|]. split; [apply lookup_insert_eq|apply storedObject_tag]. }
  destruct d; [|apply Hup; discriminate|apply Hup; discriminate]. clear Hup.
  destruct (pipeline_Unchanged h cfg p w b Ht) as [_ ->].
  change (bucket (consumeFault _)) with (bucket w).
  revert Ht. unfold pipeline. rewrite getFileHash_eq.
  destruct (readFile h p) as [buf|e] eqn:Hr; [|discriminate].
  destruct (getR2FileETag cfg _ _) as [[r2Hash|e] w2] eqn:Hg; cbn [fst snd]; [|discriminate].
  rewrite getR2FileETag_eq in Hg. injection Hg as Hres _.
  change (pendingFault (logEvent (EvReadFile p) w)) with (pendingFault w) in Hres.
  change (bucket (logEvent (EvReadFile p) w)) with (bucket w) in Hres.
  destruct (syncDecision (md5hex h buf) r2Hash) eqn:Hd.
  - intros _. apply syncDecision_Unchanged in Hd. subst r2Hash.
    destruct (pendingFault w) as [e|].
    { destruct (String.eqb (name e) "NotFound"); discriminate. }
    destruct (bucket w !! r2KeyOf (relative (logosDir h) p)) as [obj|] eqn:Hl; [|discriminate].
    exists buf, obj. split; [exact Hr|]. split; [exact Hl|].
    destruct (ETag obj) as [tag|]; [|discriminate]. cbn in Hres |- *. congruence.
  - destruct (uploadFile h cfg p _ w2) as [[? |?] ?]; cbn; discriminate.
  - destruct (uploadFile h cfg p _ w2) as [[? |?] ?]; cbn; discriminate.
Qed.

(** Processing another file of the tree keeps a file in sync. *)
Lemma pipeline_keeps_synced (h : Host) (cfg : Config) (p q : string) (w : World) :
  underDir (logosDir h) p -> underDir (logosDir h) q ->
  synced h (bucket w) p -> synced h (bucket (snd (pipeline h cfg q w))) p.
Proof.
  intros Hp Hq Hs. destruct (pipeline_bucket h cfg q w) as [->|(body & Hr & ->)]; [exact Hs|].
  destruct (String.eqb_spec (relative (logosDir h) q) (relative (logosDir h) p)) as [Heq|Hne].
  - apply (relative_inj _ _ _ Hq Hp) in Heq. subst q.
    exists body, (storedObject h body (contentTypeOf p) cacheControl).
    split; [exact Hr|]. split; [apply lookup_insert_eq|apply storedObject_tag].
  - destruct Hs as (body' & obj & Hr' & Hl & Htag). exists body', obj.
    split; [exact Hr'|]. split; [|exact Htag].
    rewrite lookup_insert_ne; [exact Hl|].
    unfold r2KeyOf. intros Hk. apply Hne.
    apply (String.app_inj "football_logos/"). exact Hk.
Qed.

(** A file in sync is skipped, unless its lookup runs into a fault. *)
Lemma pipeline_of_synced (h : Host) (cfg : Config) (p : string) (w : World) :
  synced h (bucket w) p -> noSpuriousNotFound (faults w) ->
  bucket (snd (pipeline h cfg p w)) = bucket w /\
  isUpload (fst (pipeline h cfg p w)) = false /\
  bytesOf (fst (pipeline h cfg p w)) = 0%N /\
  (faults w = [] ->
   fst (pipeline h cfg p w) = Recorded Unchanged 0 /\ faults (snd (pipeline h cfg p w)) = []).
Proof.
  intros (body & obj & Hr & Hl & Htag) Hf.
  unfold pipeline. rewrite getFileHash_eq, Hr, getR2FileETag_eq.
  change (pendingFault (logEvent (EvReadFile p) w)) with (pendingFault w).
  change (bucket (logEvent (EvReadFile p) w)) with (bucket w).
  rewrite Hl, Htag. cbn [ofOption].
  unfold pendingFault. destruct (faults w) as [|[e|] rest] eqn:Hfs.
  - assert (Hd : syncDecision (md5hex h body) (JString (md5hex h body)) = Unchanged)
      by (apply syncDecision_Unchanged; reflexivity).
    rewrite Hd. cbn. rewrite Hfs. auto.
  - assert (Hn : String.eqb (name e) "NotFound" = false).
    { apply String.eqb_neq. inversion Hf as [|? ? H1 _]. apply H1. reflexivity. }
    rewrite Hn. cbn. repeat split; congruence.
  - assert (Hd : syncDecision (md5hex h body) (JString (md5hex h body)) = Unchanged)
      by (apply syncDecision_Unchanged; reflexivity).
    rewrite Hd. cbn. repeat split; congruence.
Qed.

Lemma outcomes_keep_synced (h : Host) (cfg : Config) (p : string)
    (localFiles : list string) :
  underDir (logosDir h) p -> Forall (underDir (logosDir h)) localFiles ->
  forall w, synced h (bucket w) p ->
    synced h (bucket (snd (outcomes h cfg localFiles w))) p.
Proof.
  intros Hp Hall. induction Hall as [|q rest Hq _ IH]; intros w Hs; [exact Hs|].
  rewrite outcomes_cons. cbn [snd]. apply IH. apply pipeline_keeps_synced; assumption.
Qed.

Lemma outcomes_noSpurious (h : Host) (cfg : Config) (localFiles : list string) :
  forall w, noSpuriousNotFound (faults w) ->
    noSpuriousNotFound (faults (snd (outcomes h cfg localFiles w))).
Proof.
  induction localFiles as [|q rest IH]; intros w Hf; [exact Hf|].
  rewrite outcomes_cons. cbn [snd]. apply IH. apply pipeline_noSpurious. exact Hf.
Qed.

(** After a run without failure every file of the tree is in sync. *)
Lemma first_run_syncs (h : Host) (cfg : Config) (localFiles : list string) :
  Forall (underDir (logosDir h)) localFiles ->
  forall w, countWhere isFailure (fst (outcomes h cfg localFiles w)) = 0%nat ->
    Forall (synced h (bucket (snd (outcomes h cfg localFiles w)))) localFiles.
Proof.
  intros Hall. induction Hall as [|p rest Hp Hrest IH]; intros w Hnone; [constructor|].
  rewrite outcomes_cons in Hnone |- *. cbn [fst snd] in *.
  rewrite countWhere_cons in Hnone. cbn [snd] in Hnone.
  destruct (fst (pipeline h cfg p w)) as [d b|msg] eqn:Ht; [|discriminate].
  constructor.
  - apply outcomes_keep_synced; [exact Hp|exact Hrest|].
    exact (pipeline_synced h cfg p w d b Ht).
  - apply IH. exact Hnone.
Qed.

(** A run over files that are all in sync uploads nothing. *)
Lemma synced_run_uploads_nothing (h : Host) (cfg : Config) (localFiles : list string) :
  forall w, Forall (synced h (bucket w)) localFiles -> noSpuriousNotFound (faults w) ->
    bucket (snd (outcomes h cfg localFiles w)) = bucket w /\
    countWhere isUpload (fst (outcomes h cfg localFiles w)) = 0%nat /\
    sumN (List.map (fun o => bytesOf (snd o)) (fst (outcomes h cfg localFiles w))) = 0%N /\
    (faults w = [] ->
     Forall (fun o => snd o = Recorded Unchanged 0) (fst (outcomes h cfg localFiles w))).
Proof.
  induction localFiles as [|p rest IH]; intros w Hall Hf.
  - cbn. auto.
  - inversion Hall as [|? ? Hp Hrest]; subst.
    destruct (pipeline_of_synced h cfg p w Hp Hf) as (Hb & Hu & Hz & Hclean).
    rewrite outcomes_cons. cbn [fst snd].
    destruct (IH (snd (pipeline h cfg p w))) as (IHb & IHu & IHz & IHclean).
    { rewrite Hb. exact Hrest. }
    { apply pipeline_noSpurious. exact Hf. }
    split; [rewrite IHb; exact Hb|].
    split; [rewrite countWhere_cons; cbn [snd]; rewrite Hu, IHu; reflexivity|].
    split.
    { cbn [List.map sumN fold_right snd].
      fold (sumN (List.map (fun o => bytesOf (snd o))
                    (fst (outcomes h cfg rest (snd (pipeline h cfg p w)))))).
      rewrite Hz, IHz. reflexivity. }
    intros Hnil. destruct (Hclean Hnil) as [Ht Hnil']. constructor; [exact Ht|].
    apply IHclean. exact Hnil'.
Qed.

Lemma all_unchanged_no_failure (ts : list (string * Terminal)) :
  Forall (fun o => snd o = Recorded Unchanged 0) ts -> countWhere isFailure ts = 0%nat.
Proof.
  intros H. unfold countWhere. induction H as [|o ts Ho _ IH]; [reflexivity|].
  cbn [List.filter]. rewrite Ho. exact IH.
Qed.

(** C2.  Run the loop over the scanned files, and run it again from the
    world the first run left, the local tree being the same.  If the first
    run recorded no failure (and the store never answers [NotFound] for an
    object it holds), then after the first run the tag of every file, quotes
    removed, is the digest of its local bytes, and the second run uploads
    zero files, transfers zero bytes and leaves the bucket as it is: every
    file is skipped or, when its lookup runs into a transport fault, failed;
    with no transport fault left every file is classified [Unchanged]. *)
Theorem second_run_uploads_nothing (h : Host) (cfg : Config) (localFiles : list string)
    (out1 out2 : list (Stream * string)) (w : World) :
  getFiles (logosDir h) (logosListing h) [] = Ok localFiles ->
  noSpuriousNotFound (faults w) ->
  errors (fst (syncLoop h cfg localFiles (initialRun out1) w)) = [] ->
  let w1 := snd (syncLoop h cfg localFiles (initialRun out1) w) in
  let second := syncLoop h cfg localFiles (initialRun out2) w1 in
  Forall (synced h (bucket w1)) localFiles /\
  uploaded (fst second) = 0%nat /\
  totalBytes (fst second) = 0%N /\
  bucket (snd second) = bucket w1 /\
  (skipped (fst second) + List.length (errors (fst second)))%nat = List.length localFiles /\
  (faults w1 = [] ->
   skipped (fst second) = List.length localFiles /\
   errors (fst second) = [] /\
   Forall (fun o => snd o = Recorded Unchanged 0) (fst (outcomes h cfg localFiles w1))).
Proof.
  intros Hscan Hf Hok w1 second.
  pose proof (getFiles_under _ _ _ Hscan) as Hunder.
  destruct (syncLoop_outcomes h cfg localFiles (initialRun out1) w) as (Hw1 & _ & _ & _ & He1).
  fold w1 in Hw1.
  assert (Hnone : countWhere isFailure (fst (outcomes h cfg localFiles w)) = 0%nat).
  { rewrite <- failures_length with (h := h). rewrite Hok in He1.
    cbn [initialRun errors app] in He1. rewrite <- He1. reflexivity. }
  assert (Hsync : Forall (synced h (bucket w1)) localFiles).
  { rewrite Hw1. apply first_run_syncs; assumption. }
  assert (Hf1 : noSpuriousNotFound (faults w1)).
  { rewrite Hw1. apply outcomes_noSpurious. exact Hf. }
  destruct (synced_run_uploads_nothing h cfg localFiles w1 Hsync Hf1) as (Hb & Hu & Hz & Hclean).
  destruct (syncLoop_outcomes h cfg localFiles (initialRun out2) w1) as (Hw2 & Hu2 & Hs2 & Hb2 & He2).
  fold second in Hw2, Hu2, Hs2, Hb2, He2.
  pose proof (loop_counts_total h cfg localFiles out2 w1) as Hpart.
  cbv zeta in Hpart. fold second in Hpart.
  cbn [initialRun uploaded skipped totalBytes errors app] in Hu2, Hs2, Hb2, He2.
  split; [exact Hsync|].
  split; [rewrite Hu2, Hu; reflexivity|].
  split; [rewrite Hb2, Hz; reflexivity|].
  split; [rewrite Hw2; exact Hb|].
  split; [rewrite Hu2, Hu in Hpart; exact Hpart|].
  intros Hnil. specialize (Hclean Hnil).
  assert (Hnofail : countWhere isFailure (fst (outcomes h cfg localFiles w1)) = 0%nat).
  { apply all_unchanged_no_failure. exact Hclean. }
  assert (He : errors (fst second) = []).
  { rewrite He2. apply no_failure_entries. exact Hnofail. }
  split; [|split; [exact He|exact Hclean]].
  rewrite Hu2, Hu, He in Hpart. cbn [List.length] in Hpart. lia.
Qed.

Lemma second_run_uploads_nothing_witness :
  let files := [arsenal; chelsea] in
  let w1 := snd (syncLoop sampleHost sampleConfig files (initialRun []) emptyWorld) in
  getFiles (logosDir sampleHost) (logosListing sampleHost) [] = Ok files /\
  noSpuriousNotFound (faults emptyWorld) /\
  errors (fst (syncLoop sampleHost sampleConfig files (initialRun []) emptyWorld)) = [] /\
  uploaded (fst (syncLoop sampleHost sampleConfig files (initialRun []) w1)) = 0%nat.
Proof.
  intros files w1.
  assert (H1 : getFiles (logosDir sampleHost) (logosListing sampleHost) [] = Ok files)
    by reflexivity.
  assert (H2 : noSpuriousNotFound (faults emptyWorld)) by constructor.
  assert (H3 : errors (fst (syncLoop sampleHost sampleConfig files (initialRun [])
                              emptyWorld)) = []) by reflexivity.
  split; [exact H1|]. split; [exact H2|]. split; [exact H3|].
  exact (proj1 (proj2 (second_run_uploads_nothing sampleHost sampleConfig files [] []
                         emptyWorld H1 H2 H3))).
Defined.

(** * Scan errors *)

Lemma visitEntries_readable (dir : string) (files : list Dirent) :
  Forall (scanOutcome dir) files ->
  forall fileList,
    if forallb readableEntry files
    then exists fileList', visitEntries dir files fileList = Ok fileList'
    else exists e, visitEntries dir files fileList = Throw e.
Proof.
  intros H. induction H as [|f files Hf _ IH]; intros fileList.
  - cbn. eexists. reflexivity.
  - cbn [forallb visitEntries]. specialize (Hf fileList).
    destruct (readableEntry f); cbn [andb].
    + destruct Hf as [fl1 ->]. apply IH.
    + destruct Hf as [e ->]. exists e. reflexivity.
Qed.

Lemma visit_readable (d : Dirent) : forall dir, scanOutcome dir d.
Proof.
  induction d as [entryName|entryName e|entryName files IH] using Dirent_nested_ind;
    intros dir fileList.
  - cbn [readableEntry visitEntry]. destruct (matchesAllowlist entryName); eexists; reflexivity.
  - cbn. exists e. reflexivity.
  - rewrite visitEntry_dir. cbn [readableEntry getFiles].
    apply visitEntries_readable.
    induction IH as [|f files Hf _ IHfiles]; constructor; [apply Hf|exact IHfiles].
Qed.

(** The scan succeeds exactly on the trees all of whose directories can be
    listed; otherwise [getFiles] throws. *)
Lemma getFiles_readable (dir : string) (listing : result (list Dirent))
    (fileList : list string) :
  if readableListing listing
  then exists fileList', getFiles dir listing fileList = Ok fileList'
  else exists e, getFiles dir listing fileList = Throw e.
Proof.
  destruct listing as [files|e]; cbn [readableListing getFiles].
  - apply visitEntries_readable. apply Forall_forall. intros d _. apply visit_readable.
  - exists e. reflexivity.
Qed.

(** C5 (amended).  A scan error is not scoped to its subtree.  When some
    directory of the tree cannot be listed, [getFiles] throws the error of
    [readdir]; the outer handler of [syncToR2] reports that the sync failed
    and exits with status 1, and no file has been processed: the world is as
    it was, nothing was read and no request was sent. *)
Theorem unreadable_directory_aborts_run (h : Host) (cfg : Config) (w : World) :
  readableListing (logosListing h) = false ->
  exists e,
    getFiles (logosDir h) (logosListing h) [] = Throw e /\
    syncToR2 h cfg w = (syncFailed cfg e, w) /\
    exitCode (fst (syncToR2 h cfg w)) = Some 1%nat.
Proof.
  intros Hbad.
  pose proof (getFiles_readable (logosDir h) (logosListing h) []) as H.
  rewrite Hbad in H. destruct H as [e He]. exists e.
  unfold syncToR2. rewrite He. split; [reflexivity|]. split; reflexivity.
Qed.

Lemma unreadable_directory_aborts_run_witness :
  readableListing (logosListing lockedHost) = false /\
  exists e, syncToR2 lockedHost sampleConfig emptyWorld = (syncFailed sampleConfig e, emptyWorld).
Proof.
  assert (H : readableListing (logosListing lockedHost) = false) by reflexivity.
  split; [exact H|].
  destruct (unreadable_directory_aborts_run lockedHost sampleConfig emptyWorld H)
    as (e & _ & Hrun & _).
  exists e. exact Hrun.
Defined.

(** C5, as stated, fails: with one unreadable directory next to a readable
    logo, the scan yields no file list and the run ends with status 1
    without having touched the logo. *)
Lemma scan_error_not_scoped :
  getFiles (logosDir lockedHost) (logosListing lockedHost) [] = Throw eacces /\
  syncToR2 lockedHost sampleConfig emptyWorld = (syncFailed sampleConfig eacces, emptyWorld) /\
  ~ scanErrorIsScoped lockedHost sampleConfig emptyWorld.
Proof.
  split; [reflexivity|]. split; [reflexivity|].
  intros (localFiles & Hscan & _). discriminate Hscan.
Qed.

(** * Extensions and content types *)

Lemma list_ascii_of_string_app (a b : string) :
  list_ascii_of_string (a ++ b) = app (list_ascii_of_string a) (list_ascii_of_string b).
Proof.
  induction a as [|c a IH]; [reflexivity|].
  change (c :: list_ascii_of_string (a ++ b) =
          c :: app (list_ascii_of_string a) (list_ascii_of_string b)).
  f_equal. exact IH.
Qed.

Lemma list_ascii_of_string_inj (a b : string) :
  list_ascii_of_string a = list_ascii_of_string b -> a = b.
Proof.
  intros H. rewrite <- (string_of_list_ascii_of_string a), H.
  apply string_of_list_ascii_of_string.
Qed.

Lemma list_ascii_length (a : string) :
  List.length (list_ascii_of_string a) = String.length a.
Proof. induction a as [|c a IH]; [reflexivity|]. cbn. f_equal. exact IH. Qed.

Lemma toLower_app (a b : string) : toLower (a ++ b) = toLower a ++ toLower b.
Proof.
  induction a as [|c a IH]; [reflexivity|].
  change (String (lowerChar c) (toLower (a ++ b)) =
          String (lowerChar c) (toLower a ++ toLower b)).
  f_equal. exact IH.
Qed.

Lemma endsWith_app (a b : string) : endsWith (a ++ b) b = true.
Proof.
  unfold endsWith. apply bool_decide_eq_true. rewrite list_ascii_of_string_app.
  apply suffix_app_r. reflexivity.
Qed.

(** A suffix of the same length as the end of a string is that end. *)
Lemma endsWith_same_length (a t s : string) :
  endsWith (a ++ t) s = true -> String.length s = String.length t -> s = t.
Proof.
  unfold endsWith. rewrite bool_decide_eq_true, list_ascii_of_string_app.
  intros [k Hk] Hlen. apply list_ascii_of_string_inj.
  apply app_inj_2 in Hk; [destruct Hk as [_ Hk]; symmetry; exact Hk|].
  rewrite !list_ascii_length. symmetry. exact Hlen.
Qed.

Lemma endsWith_one_longer (a t s : string) (c : ascii) :
  endsWith (a ++ t) (String c s) = true -> String.length s = String.length t -> s = t.
Proof.
  unfold endsWith. rewrite bool_decide_eq_true. intros H Hlen.
  apply (endsWith_same_length a t s); [|exact Hlen].
  unfold endsWith. apply bool_decide_eq_true.
  apply (suffix_cons_l _ _ c). exact H.
Qed.

Lemma endsWith_one_shorter (a t s : string) (c : ascii) :
  endsWith (a ++ String c t) s = true -> String.length s = String.length t -> s = t.
Proof.
  intros H Hlen. apply (endsWith_same_length (a ++ String c "") t s); [|exact Hlen].
  rewrite string_app_assoc. exact H.
Qed.

(** A name that ends in a case variant of an allowed extension does not end
    in any of the three lower-case extensions [uploadFile] looks for. *)
Lemma variant_has_no_mapped_suffix (prefix suffix ext mapped : string) :
  In ext allowedExtensions ->
  toLower suffix = "." ++ ext ->
  suffix <> "." ++ ext ->
  In mapped [".svg"; ".png"; ".json"] ->
  endsWith (prefix ++ suffix) mapped = false.
Proof.
  intros Hext Hlow Hne Hmapped.
  destruct (endsWith (prefix ++ suffix) mapped) eqn:E; [exfalso|reflexivity].
  cbn in Hext, Hmapped.
  destruct Hext as [<-|[<-|[<-|[]]]];
    destruct Hmapped as [<-|[<-|[<-|[]]]];
    destruct suffix as [|c1 [|c2 [|c3 [|c4 [|c5 [|c6 ?]]]]]]; try discriminate Hlow;
    first
      [ apply endsWith_same_length in E; [|reflexivity]
      | apply endsWith_one_longer in E; [|reflexivity]
      | apply endsWith_one_shorter in E; [|reflexivity] ];
    first
      [ exact (Hne (eq_sym E))
      | injection E as <- <- <- <-; cbv in Hlow; discriminate Hlow
      | injection E as <- <- <- <- <-; cbv in Hlow; discriminate Hlow ].
Qed.

(** The scanner only ever appends to [fileList]. *)
Lemma visitEntry_extends (d : Dirent) :
  forall dir fileList fileList',
    visitEntry dir d fileList = Ok fileList' ->
    exists added, fileList' = app fileList added.
Proof.
  induction d as [entryName|entryName e|entryName files IH] using Dirent_nested_ind;
    intros dir fileList fileList'.
  - cbn [visitEntry]. destruct (matchesAllowlist entryName); intros [= <-].
    + eexists. reflexivity.
    + exists []. symmetry. apply app_nil_r.
  - cbn. discriminate.
  - rewrite visitEntry_dir. cbn [getFiles]. generalize (join dir entryName). intros sub.
    revert fileList. induction IH as [|f files Hf _ IHfiles]; intros fileList.
    + intros [= <-]. exists []. symmetry. apply app_nil_r.
    + cbn [visitEntries]. destruct (visitEntry sub f fileList) as [fl1|e] eqn:Hv; [|discriminate].
      intros H. apply Hf in Hv. destruct Hv as [a1 ->].
      apply IHfiles in H. destruct H as [a2 ->].
      exists (app a1 a2). symmetry. apply app_assoc.
Qed.

Lemma visitEntries_extends (dir : string) (files : list Dirent) :
  forall fileList fileList',
    visitEntries dir files fileList = Ok fileList' ->
    exists added, fileList' = app fileList added.
Proof.
  induction files as [|f files IH]; intros fileList fileList'.
  - intros [= <-]. exists []. symmetry. apply app_nil_r.
  - cbn [visitEntries]. destruct (visitEntry dir f fileList) as [fl1|e] eqn:Hv; [|discriminate].
    intros H. apply visitEntry_extends in Hv. destruct Hv as [a1 ->].
    apply IH in H. destruct H as [a2 ->].
    exists (app a1 a2). symmetry. apply app_assoc.
Qed.

(** A file of a listing whose name matches the allowlist is in the result of
    a scan that completes. *)
Lemma visitEntries_includes (dir entryName : string) (files : list Dirent) :
  matchesAllowlist entryName = true ->
  In (FileEntry entryName) files ->
  forall fileList fileList',
    visitEntries dir files fileList = Ok fileList' ->
    In (join dir entryName) fileList'.
Proof.
  intros Hm. induction files as [|f files IH]; intros Hin fileList fileList'; [destruct Hin|].
  cbn [visitEntries]. destruct (visitEntry dir f fileList) as [fl1|e] eqn:Hv; [|discriminate].
  intros H. destruct Hin as [->|Hin].
  - cbn [visitEntry] in Hv. rewrite Hm in Hv. injection Hv as <-.
    apply visitEntries_extends in H. destruct H as [added ->].
    apply in_or_app. left. apply in_or_app. right. left. reflexivity.
  - exact (IH Hin _ _ H).
Qed.

(** C10.  The allowlist is matched without regard to case, the content-type
    mapping with regard to case.  A file whose name ends in a variant of
    [.svg], [.png] or [.json] that is not all lower case passes the
    allowlist and is in the list a completed scan returns; its content type
    is [application/octet-stream], and that is the type stored with the
    object when the file is uploaded. *)
Theorem case_variant_scanned_as_octet_stream (h : Host) (cfg : Config)
    (dir stem suffix ext : string) :
  In ext allowedExtensions ->
  toLower suffix = "." ++ ext ->
  suffix <> "." ++ ext ->
  let entryName := stem ++ suffix in
  let localPath := join dir entryName in
  matchesAllowlist entryName = true /\
  (forall files fileList fileList',
     In (FileEntry entryName) files ->
     visitEntries dir files fileList = Ok fileList' ->
     In localPath fileList') /\
  contentTypeOf localPath = "application/octet-stream" /\
  (forall w d bytes,
     fst (pipeline h cfg localPath w) = Recorded d bytes -> d <> Unchanged ->
     exists obj,
       bucket (snd (pipeline h cfg localPath w)) !! r2KeyOf (relative (logosDir h) localPath)
         = Some obj /\
       ContentType obj = "application/octet-stream").
Proof.
  intros Hext Hlow Hne entryName localPath.
  assert (Hmatch : matchesAllowlist entryName = true).
  { unfold matchesAllowlist, entryName. apply existsb_exists. exists ext.
    split; [exact Hext|]. rewrite toLower_app, Hlow. apply endsWith_app. }
  assert (Htype : contentTypeOf localPath = "application/octet-stream").
  { unfold contentTypeOf, localPath, join, entryName.
    rewrite <- (string_app_assoc "/" stem suffix).
    rewrite <- (string_app_assoc dir ("/" ++ stem) suffix).
    rewrite !(variant_has_no_mapped_suffix _ suffix ext) by (auto; cbn; auto).
    reflexivity. }
  split; [exact Hmatch|]. split; [|split; [exact Htype|]].
  - intros files fileList fileList' Hin Hscan.
    exact (visitEntries_includes dir entryName files Hmatch Hin fileList fileList' Hscan).
  - intros w d bytes Ht Hd.
    destruct (pipeline_upload h cfg localPath w d bytes Ht Hd) as (_ & body & _ & ->).
    eexists. split; [apply lookup_insert_eq|]. cbn [storedObject ContentType]. exact Htype.
Qed.

Lemma case_variant_scanned_as_octet_stream_witness :
  In "svg" allowedExtensions /\
  toLower ".SVG" = "." ++ "svg" /\
  ".SVG" <> "." ++ "svg" /\
  contentTypeOf (join "/app/football_logos" ("Ajax" ++ ".SVG")) = "application/octet-stream".
Proof.
  assert (H1 : In "svg" allowedExtensions) by (left; reflexivity).
  assert (H2 : toLower ".SVG" = "." ++ "svg") by reflexivity.
  assert (H3 : ".SVG" <> "." ++ "svg") by discriminate.
  split; [exact H1|]. split; [exact H2|]. split; [exact H3|].
  exact (proj1 (proj2 (proj2 (case_variant_scanned_as_octet_stream sampleHost sampleConfig
                                "/app/football_logos" "Ajax" ".SVG" "svg" H1 H2 H3)))).
Defined.

(** * Human-readable sizes *)

Example formatBytes_zero : formatBytes 0 = "0 Bytes".
Proof. reflexivity. Qed.

Example formatBytes_kilobytes : formatBytes 1536 = "1.5 KB".
Proof. reflexivity. Qed.

Example formatBytes_megabytes : formatBytes 1234567 = "1.18 MB".
Proof. reflexivity. Qed.

Lemma unitIndex_below_4 (n : N) : (0 < n < 1024 ^ 4)%N -> (unitIndex n < 4)%N.
Proof.
  intros [Hpos Hlt]. unfold unitIndex.
  assert (H40 : (N.log2 n < 40)%N).
  { apply N.log2_lt_pow2; [exact Hpos|]. exact Hlt. }
  apply N.Div0.div_lt_upper_bound. exact H40.
Qed.

(** Below one tebibyte the unit is one of the four names of [sizes]. *)
Lemma formatBytes_unit_in_range (n : N) :
  (0 < n < 1024 ^ 4)%N -> In (sizeName (unitIndex n)) sizes.
Proof.
  intros H. apply unitIndex_below_4 in H. unfold sizeName.
  assert (Hn : (N.to_nat (unitIndex n) < 4)%nat) by lia.
  destruct (N.to_nat (unitIndex n)) as [|[|[|[|k]]]]; cbn; auto. lia.
Qed.

Lemma unitIndex_from_4 (n : N) : (2 ^ 40 <= n)%N -> (4 <= unitIndex n)%N.
Proof.
  intros H. unfold unitIndex.
  assert (H40 : (40 <= N.log2 n)%N).
  { rewrite <- (N.log2_pow2 40) by lia. apply N.log2_le_mono. exact H. }
  change 4%N with (40 / 10)%N. apply N.Div0.div_le_mono. exact H40.
Qed.

(** C8 (the code departs from it).  From one tebibyte on, the index computed
    from the logarithm is past the end of [sizes], and the unit printed is
    [undefined]: two tebibytes are rendered as [2 undefined]. *)
Theorem formatBytes_past_gigabytes :
  formatBytes (2 ^ 41) = "2 undefined" /\
  ~ In (sizeName (unitIndex (2 ^ 41))) sizes /\
  forall n : N, (2 ^ 40 <= n)%N -> sizeName (unitIndex n) = "undefined".
Proof.
  split; [reflexivity|]. split.
  - cbn. intros [H|[H|[H|[H|[]]]]]; discriminate H.
  - intros n Hn. apply unitIndex_from_4 in Hn. unfold sizeName.
    assert (Hnone : nth_error sizes (N.to_nat (unitIndex n)) = None).
    { apply nth_error_None. cbn. lia. }
    rewrite Hnone. reflexivity.
Qed.

(** * Further properties of the configuration *)

Lemma missing_nil_iff (c : Config) :
  missing c = [] <->
  ~ isMissing (accountId c) /\ ~ isMissing (accessKeyId c) /\
  ~ isMissing (secretAccessKey c) /\ ~ isMissing (bucketName c).
Proof.
  split.
  - intros Hnil.
    assert (H : forall key, In key required -> ~ isMissing (configGet c key)).
    { intros key Hreq Hm.
      assert (Hin : In key (missing c)) by (apply In_missing; split; assumption).
      rewrite Hnil in Hin. exact Hin. }
    repeat split.
    + apply (H "accountId"). cbn. tauto.
    + apply (H "accessKeyId"). cbn. tauto.
    + apply (H "secretAccessKey"). cbn. tauto.
    + apply (H "bucketName"). cbn. tauto.
  - intros (H1 & H2 & H3 & H4).
    destruct (missing c) as [|key rest] eqn:E; [reflexivity|exfalso].
    assert (Hin : In key (missing c)) by (rewrite E; left; reflexivity).
    apply In_missing in Hin. destruct Hin as [Hreq Hm].
    cbn in Hreq. destruct Hreq as [<-|[<-|[<-|[<-|[]]]]]; cbn in Hm; tauto.
Qed.

(** X1.  [validateConfig] lets the script go on exactly when none of the
    four required values is unset or empty, and then the script is the sync
    itself. *)
Theorem validateConfig_passes_iff (h : Host) (c : Config) (w : World) :
  (validateConfig c = None <->
   ~ isMissing (accountId c) /\ ~ isMissing (accessKeyId c) /\
   ~ isMissing (secretAccessKey c) /\ ~ isMissing (bucketName c)) /\
  (validateConfig c = None -> script h c w = syncToR2 h c w).
Proof.
  split.
  - rewrite <- missing_nil_iff. unfold validateConfig.
    destruct (missing c); split; intros H; try reflexivity; discriminate H.
  - intros H. unfold script. rewrite H. reflexivity.
Qed.

(** X2.  The bucket name falls back to [football-logos] when
    [R2_BUCKET_NAME] is unset or empty and is the value of the variable
    otherwise; whatever the environment, [validateConfig] never reports
    [R2_BUCKET_NAME] as missing. *)
Theorem bucket_name_defaults (env : Env) :
  (isMissing (env "R2_BUCKET_NAME") -> bucketName (config env) = Some "football-logos") /\
  (~ isMissing (env "R2_BUCKET_NAME") -> bucketName (config env) = env "R2_BUCKET_NAME") /\
  (forall p, validateConfig (config env) = Some p ->
     ~ In (missingLine "R2_BUCKET_NAME") (console p)).
Proof.
  split; [|split].
  - intros [H|H]; unfold config, orElse; cbn [bucketName]; rewrite H; reflexivity.
  - intros H. unfold config, orElse. cbn [bucketName].
    destruct (env "R2_BUCKET_NAME") as [[|a s]|]; cbn; try reflexivity;
      exfalso; apply H; unfold isMissing; auto.
  - intros p Hp Hin. apply (In_missingLine_console _ _ _ Hp) in Hin.
    destruct Hin as (key & Hin & Hvar). apply In_missing in Hin. destruct Hin as [Hreq Hm].
    cbn in Hreq. destruct Hreq as [<-|[<-|[<-|[<-|[]]]]]; try discriminate Hvar.
    exact (config_bucketName_present env Hm).
Qed.

(** X3.  The exit status of the script.  It is 1 when a required value is
    missing, when some directory of the tree cannot be listed, and when the
    run ends with a read stream left without consumer; in every other case
    the script ends normally, whatever happened to the individual files.
    A run that starts with no such stream ends with none when every scanned
    file can be measured, and a stream it ends with was left by a scanned
    file on which [statSync] threw. *)
Theorem exit_status_of_script (h : Host) (c : Config) (w : World) :
  let final := snd (script h c w) in
  exitCode (fst (script h c w)) =
    match missing c with
    | [] => if readableListing (logosListing h)
            then statusAfter (orphan final)
            else Some 1%nat
    | _ :: _ => Some 1%nat
    end /\
  forall localFiles,
    getFiles (logosDir h) (logosListing h) [] = Ok localFiles ->
    orphan w = None ->
    (Forall (fun p => exists size, statSize h p = Ok size) localFiles ->
     orphan final = None) /\
    (forall e, orphan final = Some e ->
               exists p, In p localFiles /\ statSize h p = Throw e).
Proof.
  intros final. subst final. split.
  - unfold script, validateConfig. destruct (missing c) as [|key rest]; [|reflexivity].
    unfold syncToR2.
    pose proof (getFiles_readable (logosDir h) (logosListing h) []) as H.
    destruct (readableListing (logosListing h)).
    + destruct H as [files ->].
      destruct (liveLoop_processed h c files
                  (initialRun (app (banner c) [foundLine files])) w)
        as (processed & _ & _ & Hnone).
      destruct (liveLoop h c files _ w) as [[st w'] unprocessed]. cbn [fst snd] in *.
      destruct unprocessed as [|p rest]; [reflexivity|].
      cbn [fst snd exitCode]. destruct (orphan w') as [e|]; [reflexivity|].
      specialize (Hnone eq_refl). discriminate.
    + destruct H as [e ->]. reflexivity.
  - intros localFiles Hscan Ho.
    assert (Hnew : forall e, orphan (snd (script h c w)) = Some e ->
              exists p, In p localFiles /\ statSize h p = Throw e).
    { intros e. unfold script. destruct (validateConfig c) as [p|]; [cbn; congruence|].
      unfold syncToR2. rewrite Hscan.
      destruct (liveLoop_processed h c localFiles
                  (initialRun (app (banner c) [foundLine localFiles])) w)
        as (processed & Hsplit & Hloop & _).
      destruct (liveLoop h c localFiles _ w) as [[st w'] unprocessed]. cbn [fst snd] in *.
      assert (Hw' : w' = snd (outcomes h c processed w)).
      { rewrite <- syncLoop_world_outcomes
          with (st := initialRun (app (banner c) [foundLine localFiles])).
        rewrite <- Hloop. reflexivity. }
      intros Hend.
      assert (Hend' : orphan w' = Some e) by (destruct unprocessed; exact Hend).
      rewrite Hw' in Hend'.
      destruct (outcomes_orphan_new h c processed w e Ho Hend') as (q & Hin & Hq).
      exists q. split; [|exact Hq].
      rewrite Hsplit. apply in_or_app. left.
      rewrite <- (outcomes_files h c processed w).
      apply (in_map fst) in Hin. exact Hin. }
    split; [|exact Hnew].
    intros Hall. destruct (orphan (snd (script h c w))) as [e|] eqn:He; [|reflexivity].
    destruct (Hnew e eq_refl) as (p & Hin & Hp).
    rewrite List.Forall_forall in Hall. destruct (Hall p Hin) as [size Hsize]. congruence.
Qed.

Lemma exit_status_of_script_witness :
  exitCode (fst (script sampleHost sampleConfig emptyWorld)) = None /\
  exitCode (fst (script vanishingHost sampleConfig emptyWorld)) = Some 1%nat /\
  exists p, In p [arsenal; chelsea] /\ statSize vanishingHost p = Throw enoent.
Proof.
  split; [|split].
  - rewrite (proj1 (exit_status_of_script sampleHost sampleConfig emptyWorld)).
    reflexivity.
  - rewrite (proj1 (exit_status_of_script vanishingHost sampleConfig emptyWorld)).
    reflexivity.
  - exact (proj2 (proj2 (exit_status_of_script vanishingHost sampleConfig emptyWorld)
                    [arsenal; chelsea] eq_refl eq_refl) enoent eq_refl).
Defined.

(** * Further properties of the scanner *)

Lemma visitEntries_lists (dir : string) (files : list Dirent) :
  Forall (fun d => forall dir fileList, readableEntry d = true ->
            visitEntry dir d fileList = Ok (app fileList (entryFiles dir d))) files ->
  forall fileList, forallb readableEntry files = true ->
    visitEntries dir files fileList = Ok (app fileList (flat_map (entryFiles dir) files)).
Proof.
  intros H. induction H as [|f files Hf _ IH]; intros fileList Hr.
  - cbn. rewrite app_nil_r. reflexivity.
  - cbn [forallb] in Hr. apply andb_true_iff in Hr. destruct Hr as [Hr1 Hr2].
    cbn [visitEntries flat_map]. rewrite (Hf dir fileList Hr1), (IH _ Hr2), app_assoc.
    reflexivity.
Qed.

Lemma visitEntry_lists (d : Dirent) :
  forall dir fileList, readableEntry d = true ->
    visitEntry dir d fileList = Ok (app fileList (entryFiles dir d)).
Proof.
  induction d as [entryName|entryName e|entryName files IH] using Dirent_nested_ind;
    intros dir fileList Hr.
  - cbn [visitEntry entryFiles]. destruct (matchesAllowlist entryName); [reflexivity|].
    rewrite app_nil_r. reflexivity.
  - discriminate Hr.
  - rewrite visitEntry_dir. cbn [getFiles entryFiles readableEntry] in *.
    apply visitEntries_lists; [exact IH|exact Hr].
Qed.

(** X4.  A scan of a tree all of whose directories can be listed returns the
    initial list followed by the files with an allowed extension, in
    depth-first order: the files of a directory take the place the directory
    has in the listing of its parent. *)
Theorem getFiles_lists_tree (dir : string) (files : list Dirent) (fileList : list string) :
  forallb readableEntry files = true ->
  getFiles dir (Ok files) fileList = Ok (app fileList (flat_map (entryFiles dir) files)).
Proof.
  intros Hr. cbn [getFiles]. apply visitEntries_lists; [|exact Hr].
  apply Forall_forall. intros d _. apply visitEntry_lists.
Qed.

Lemma getFiles_lists_tree_witness :
  forallb readableEntry
    [DirEntry "england" (Ok [FileEntry "Arsenal.svg"; FileEntry "notes.txt"]);
     FileEntry "index.JSON"] = true /\
  getFiles "/r"
    (Ok [DirEntry "england" (Ok [FileEntry "Arsenal.svg"; FileEntry "notes.txt"]);
         FileEntry "index.JSON"]) ["/r/first.png"] =
  Ok ["/r/first.png"; "/r/england/Arsenal.svg"; "/r/index.JSON"].
Proof.
  assert (H : forallb readableEntry
    [DirEntry "england" (Ok [FileEntry "Arsenal.svg"; FileEntry "notes.txt"]);
     FileEntry "index.JSON"] = true) by reflexivity.
  split; [exact H|].
  exact (getFiles_lists_tree "/r" _ ["/r/first.png"] H).
Defined.

Lemma endsWith_app_l (a s suf : string) :
  endsWith s suf = true -> endsWith (a ++ s) suf = true.
Proof.
  unfold endsWith. rewrite !bool_decide_eq_true, list_ascii_of_string_app.
  apply suffix_app_r.
Qed.

Lemma matchesAllowlist_app (a entryName : string) :
  matchesAllowlist entryName = true -> matchesAllowlist (a ++ entryName) = true.
Proof.
  unfold matchesAllowlist. rewrite !existsb_exists.
  intros (ext & Hin & H). exists ext. split; [exact Hin|].
  rewrite toLower_app. apply endsWith_app_l. exact H.
Qed.

Lemma visitEntry_allowed (d : Dirent) :
  forall dir fileList fileList',
    Forall (fun p => matchesAllowlist p = true) fileList ->
    visitEntry dir d fileList = Ok fileList' ->
    Forall (fun p => matchesAllowlist p = true) fileList'.
Proof.
  induction d as [entryName|entryName e|entryName files IH] using Dirent_nested_ind;
    intros dir fileList fileList' Hfl.
  - cbn [visitEntry]. destruct (matchesAllowlist entryName) eqn:Hm; intros [= <-]; [|exact Hfl].
    apply Forall_app. split; [exact Hfl|]. constructor; [|constructor].
    unfold join. rewrite <- string_app_assoc. apply matchesAllowlist_app. exact Hm.
  - cbn. discriminate.
  - rewrite visitEntry_dir. cbn [getFiles]. generalize (join dir entryName). intros sub.
    revert fileList Hfl. induction IH as [|f files Hf _ IHfiles]; intros fileList Hfl.
    + intros [= <-]. exact Hfl.
    + cbn [visitEntries]. destruct (visitEntry sub f fileList) as [fl1|e] eqn:Hv; [|discriminate].
      apply IHfiles. exact (Hf _ _ _ Hfl Hv).
Qed.

(** X5.  Extension filtering.  Every path a scan returns ends, without
    regard to case, in [.svg], [.png] or [.json]: a file with any other
    extension is never part of the sync. *)
Theorem scanned_paths_match_allowlist (dir : string) (listing : result (list Dirent))
    (localFiles : list string) :
  getFiles dir listing [] = Ok localFiles ->
  Forall (fun p => matchesAllowlist p = true) localFiles.
Proof.
  destruct listing as [files|e]; [|discriminate]. cbn [getFiles].
  assert (Hgen : forall fl out, Forall (fun p => matchesAllowlist p = true) fl ->
            visitEntries dir files fl = Ok out ->
            Forall (fun p => matchesAllowlist p = true) out).
  { induction files as [|f files IH]; intros fl out Hfl.
    - intros [= <-]. exact Hfl.
    - cbn [visitEntries]. destruct (visitEntry dir f fl) as [fl1|e] eqn:Hv; [|discriminate].
      apply IH. exact (visitEntry_allowed f dir fl fl1 Hfl Hv). }
  apply Hgen. constructor.
Qed.

Lemma scanned_paths_match_allowlist_witness :
  getFiles (logosDir sampleHost) (logosListing sampleHost) [] = Ok [arsenal; chelsea] /\
  Forall (fun p => matchesAllowlist p = true) [arsenal; chelsea].
Proof.
  assert (H : getFiles (logosDir sampleHost) (logosListing sampleHost) []
              = Ok [arsenal; chelsea]) by reflexivity.
  split; [exact H|].
  exact (scanned_paths_match_allowlist _ _ _ H).
Defined.

(** X6.  The mapping from scanned files to remote keys.  Every file of a
    scan lies below the logo directory, so that its path is recovered from
    the relative path its key is made of, and two different scanned files
    never share a key. *)
Theorem scanned_keys_distinct (h : Host) (localFiles : list string) :
  getFiles (logosDir h) (logosListing h) [] = Ok localFiles ->
  forall p, In p localFiles ->
    p = logosDir h ++ "/" ++ relative (logosDir h) p /\
    forall q, In q localFiles -> keyOf h p = keyOf h q -> p = q.
Proof.
  intros Hscan p Hp. pose proof (getFiles_under _ _ _ Hscan) as Hunder.
  rewrite Forall_forall in Hunder.
  split; [apply relative_under; apply Hunder; apply list_elem_of_In; exact Hp|].
  intros q Hq Hk. unfold keyOf, r2KeyOf in Hk.
  apply (String.app_inj "football_logos/") in Hk.
  apply (relative_inj (logosDir h)); [| |exact Hk];
    apply Hunder; apply list_elem_of_In; assumption.
Qed.

Lemma scanned_keys_distinct_witness :
  getFiles (logosDir sampleHost) (logosListing sampleHost) [] = Ok [arsenal; chelsea] /\
  In arsenal [arsenal; chelsea] /\
  arsenal = logosDir sampleHost ++ "/" ++ relative (logosDir sampleHost) arsenal.
Proof.
  assert (H : getFiles (logosDir sampleHost) (logosListing sampleHost) []
              = Ok [arsenal; chelsea]) by reflexivity.
  assert (Hin : In arsenal [arsenal; chelsea]) by (left; reflexivity).
  split; [exact H|]. split; [exact Hin|].
  exact (proj1 (scanned_keys_distinct sampleHost [arsenal; chelsea] H arsenal Hin)).
Defined.

(** * Further properties of a run: the bucket *)

Lemma syncLoop_world (h : Host) (cfg : Config) (localFiles : list string)
    (st : Run) (w : World) :
  snd (syncLoop h cfg localFiles st w) = snd (outcomes h cfg localFiles w).
Proof. exact (proj1 (syncLoop_outcomes h cfg localFiles st w)). Qed.

Lemma pipeline_other_key (h : Host) (cfg : Config) (q k : string) (w : World) :
  keyOf h q <> k -> bucket (snd (pipeline h cfg q w)) !! k = bucket w !! k.
Proof.
  intros Hne. destruct (pipeline_bucket h cfg q w) as [->|(body & _ & ->)]; [reflexivity|].
  apply lookup_insert_ne. exact Hne.
Qed.

Lemma pipeline_keeps_keys (h : Host) (cfg : Config) (q : string) (w : World) :
  dom (bucket w) ⊆ dom (bucket (snd (pipeline h cfg q w))).
Proof.
  destruct (pipeline_bucket h cfg q w) as [->|(body & _ & ->)]; [reflexivity|].
  rewrite dom_insert_L. set_solver.
Qed.

(** X7.  A run changes nothing under a key that is not the key of one of the
    files it processes: whatever else the bucket holds stays byte for byte
    as it was. *)
Theorem run_leaves_other_keys (h : Host) (cfg : Config) (localFiles : list string)
    (st : Run) (w : World) (k : string) :
  (forall p, In p localFiles -> keyOf h p <> k) ->
  bucket (snd (syncLoop h cfg localFiles st w)) !! k = bucket w !! k.
Proof.
  rewrite syncLoop_world. revert w.
  induction localFiles as [|q rest IH]; intros w Hk; [reflexivity|].
  rewrite outcomes_cons. cbn [snd]. rewrite IH.
  - apply pipeline_other_key. apply Hk. left. reflexivity.
  - intros p Hp. apply Hk. right. exact Hp.
Qed.

Lemma run_leaves_other_keys_witness :
  (forall p, In p [arsenal] -> keyOf sampleHost p <> "football_logos/england/Old.svg") /\
  bucket (snd (syncLoop sampleHost sampleConfig [arsenal] (initialRun []) untaggedWorld))
    !! "football_logos/england/Old.svg" = None.
Proof.
  assert (H : forall p, In p [arsenal] ->
                keyOf sampleHost p <> "football_logos/england/Old.svg").
  { intros p [<-|[]]. discriminate. }
  split; [exact H|].
  exact (run_leaves_other_keys sampleHost sampleConfig [arsenal] (initialRun [])
           untaggedWorld "football_logos/england/Old.svg" H).
Defined.

(** X8.  A run never deletes: every key that holds an object before the run
    holds one after it, also when the local file it came from is gone. *)
Theorem run_never_deletes (h : Host) (cfg : Config) (localFiles : list string)
    (st : Run) (w : World) :
  dom (bucket w) ⊆ dom (bucket (snd (syncLoop h cfg localFiles st w))).
Proof.
  rewrite syncLoop_world. revert w.
  induction localFiles as [|q rest IH]; intros w; [reflexivity|].
  rewrite outcomes_cons. cbn [snd].
  etrans; [apply (pipeline_keeps_keys h cfg q w)|apply IH].
Qed.





(** * Further properties of one file *)

Lemma pipeline_fault_free (h : Host) (cfg : Config) (p : string) (w : World)
    (body : list byte) (n : N) :
  readFile h p = Ok body -> statSize h p = Ok n -> faults w = [] ->
  (bucket w !! keyOf h p = None ->
   fst (pipeline h cfg p w) = Recorded New n) /\
  (forall obj tag,
     bucket w !! keyOf h p = Some obj -> ETag obj = Some tag ->
     removeQuotes tag <> "" -> removeQuotes tag <> md5hex h body ->
     fst (pipeline h cfg p w) = Recorded Modified n) /\
  (exists d, fst (pipeline h cfg p w) = Recorded d (if d is Unchanged then 0%N else n)) /\
  faults (snd (pipeline h cfg p w)) = [].
Proof.
  intros Hr Hs Hf.
  assert (Hup : forall d w0, faults w0 = [] ->
    uploaded_as d (uploadFile h cfg p (keyOf h p) w0) =
    (Recorded d n,
     store (keyOf h p) (storedObject h body (contentTypeOf p) cacheControl)
       (consumeFault
          (logEvent (EvSend (PutObjectCommand (bucketName cfg) (keyOf h p) body
                               (contentTypeOf p) cacheControl))
             (logEvent (EvReadStream p) (logEvent (EvStat p) w0)))))).
  { intros d w0 Hf0. rewrite uploadFile_eq, Hs, Hr. cbv zeta.
    unfold pendingFault. rewrite Hf0. reflexivity. }
  assert (Hf1 : faults (consumeFault (logEvent (headEvent cfg (keyOf h p))
                          (logEvent (EvReadFile p) w))) = []).
  { cbn. rewrite Hf. reflexivity. }
  unfold pipeline. fold (keyOf h p). rewrite getFileHash_eq, Hr, getR2FileETag_eq.
  change (pendingFault (logEvent (EvReadFile p) w)) with (pendingFault w).
  change (bucket (logEvent (EvReadFile p) w)) with (bucket w).
  unfold pendingFault. rewrite Hf. fold (headEvent cfg (keyOf h p)).
  destruct (bucket w !! keyOf h p) as [obj|] eqn:Hl.
  - split; [discriminate|].
    destruct (syncDecision (md5hex h body) (ofOption (removeQuotes <$> ETag obj))) eqn:Hd.
    + split; [|split; [exists Unchanged; reflexivity|exact Hf1]].
      intros obj' tag [= <-] Htag _ Hne. rewrite Htag in Hd.
      apply syncDecision_Unchanged in Hd. injection Hd as Hd. contradiction.
    + rewrite (Hup New _ Hf1). cbn [fst snd].
      split; [|split; [exists New; reflexivity|cbn; rewrite Hf; reflexivity]].
      intros obj' tag [= <-] Htag Hne1 _. rewrite Htag in Hd.
      apply syncDecision_New in Hd. destruct Hd as [_ [Hd|[Hd|Hd]]]; try discriminate Hd.
      injection Hd as Hd. contradiction.
    + rewrite (Hup Modified _ Hf1). cbn [fst snd].
      split; [intros; reflexivity|].
      split; [exists Modified; reflexivity|cbn; rewrite Hf; reflexivity].
  - cbn [syncDecision strictEqString truthy]. rewrite (Hup New _ Hf1). cbn [fst snd].
    split; [reflexivity|]. split; [intros obj tag Hobj; discriminate Hobj|].
    split; [exists New; reflexivity|cbn; rewrite Hf; reflexivity].
Qed.

(** X10.  New-file and change detection.  With a readable file and no
    transport fault: a file whose key holds no object is classified [New],
    a file whose key holds an object with a non-empty tag other than its
    digest is classified [Modified], and in both cases the bytes counted
    are the size [statSync] reports. *)
Theorem absent_or_stale_object_is_uploaded (h : Host) (cfg : Config) (p : string)
    (w : World) (body : list byte) (n : N) :
  readFile h p = Ok body -> statSize h p = Ok n -> faults w = [] ->
  (bucket w !! keyOf h p = None ->
   fst (pipeline h cfg p w) = Recorded New n) /\
  (forall obj tag,
     bucket w !! keyOf h p = Some obj -> ETag obj = Some tag ->
     removeQuotes tag <> "" -> removeQuotes tag <> md5hex h body ->
     fst (pipeline h cfg p w) = Recorded Modified n).
Proof.
  intros Hr Hs Hf.
  destruct (pipeline_fault_free h cfg p w body n Hr Hs Hf) as (H1 & H2 & _).
  split; assumption.
Qed.

Lemma absent_or_stale_object_is_uploaded_witness :
  readFile sampleHost arsenal = Ok [x01; x02; x03] /\
  statSize sampleHost arsenal = Ok 3%N /\
  faults emptyWorld = [] /\
  fst (pipeline sampleHost sampleConfig arsenal emptyWorld) = Recorded New 3.
Proof.
  assert (H1 : readFile sampleHost arsenal = Ok [x01; x02; x03]) by reflexivity.
  assert (H2 : statSize sampleHost arsenal = Ok 3%N) by reflexivity.
  assert (H3 : faults emptyWorld = []) by reflexivity.
  split; [exact H1|]. split; [exact H2|]. split; [exact H3|].
  apply (proj1 (absent_or_stale_object_is_uploaded sampleHost sampleConfig arsenal
                  emptyWorld [x01; x02; x03] 3 H1 H2 H3)).
  reflexivity.
Defined.



(** * Further properties of a run: failures and input/output *)

Lemma failure_files_sublist (h : Host) (ts : list (string * Terminal)) :
  List.map file (flat_map (failureOf h) ts)
    `sublist_of` List.map (fun o => relative (logosDir h) (fst o)) ts.
Proof.
  induction ts as [|[p t] ts IH]; [constructor|].
  cbn [flat_map List.map fst]. destruct t as [d b|msg]; cbn.
  - apply sublist_cons. exact IH.
  - apply sublist_skip. exact IH.
Qed.

Lemma In_failures (h : Host) (ts : list (string * Terminal)) (e : ErrorEntry) :
  In e (flat_map (failureOf h) ts) <->
  exists p msg, In (p, Failed msg) ts /\
                e = {| file := relative (logosDir h) p; error := msg |}.
Proof.
  rewrite in_flat_map. split.
  - intros ([p t] & Hin & He). destruct t as [d b|msg]; cbn in He; [destruct He|].
    destruct He as [<-|[]]. exists p, msg. split; [exact Hin|reflexivity].
  - intros (p & msg & Hin & ->). exists (p, Failed msg). split; [exact Hin|].
    left. reflexivity.
Qed.

(** X12.  The failure list of a run, for any number of failures.  The
    process runs the iterations of an initial part of the scanned files,
    all of them unless a read stream is left without consumer.  The entries
    of the failure list are exactly the files of that part whose pipeline
    failed, each with the message of its error, and they come in the order
    in which the files were processed. *)
Theorem failure_list_follows_files (h : Host) (cfg : Config) (localFiles : list string)
    (out : list (Stream * string)) (w : World) :
  let '(st, w', unprocessed) := liveLoop h cfg localFiles (initialRun out) w in
  exists processed,
    localFiles = app processed unprocessed /\
    (orphan w' = None -> unprocessed = []) /\
    List.map file (errors st) `sublist_of` List.map (relative (logosDir h)) processed /\
    forall e, In e (errors st) <->
      exists p msg, In (p, Failed msg) (fst (outcomes h cfg processed w)) /\
                    e = {| file := relative (logosDir h) p; error := msg |}.
Proof.
  destruct (liveLoop_processed h cfg localFiles (initialRun out) w)
    as (processed & Hsplit & Hloop & Hnone).
  destruct (liveLoop h cfg localFiles (initialRun out) w) as [[st w'] unprocessed].
  cbn [fst snd] in *.
  exists processed. split; [exact Hsplit|]. split; [exact Hnone|].
  destruct (syncLoop_outcomes h cfg processed (initialRun out) w) as (_ & _ & _ & _ & He).
  rewrite <- Hloop in He. cbn [fst initialRun errors app] in He. rewrite He. split.
  - rewrite <- (outcomes_files h cfg processed w) at 2. rewrite List.map_map.
    apply failure_files_sublist.
  - intros e. apply In_failures.
Qed.



(** * Further properties of [formatBytes] *)

Lemma unitIndex_bounds (n : N) :
  (0 < n)%N -> (1024 ^ unitIndex n <= n < 1024 * 1024 ^ unitIndex n)%N.
Proof.
  intros Hpos. unfold unitIndex.
  destruct (N.log2_spec n Hpos) as [Hlo Hhi].
  set (L := N.log2 n) in *.
  assert (Hk : (1024 ^ (L / 10) = 2 ^ (10 * (L / 10)))%N).
  { rewrite N.pow_mul_r. reflexivity. }
  rewrite Hk.
  assert (H1 : (10 * (L / 10) <= L)%N) by (apply N.Div0.mul_div_le).
  assert (H2 : (L < 10 * (L / 10) + 10)%N).
  { pose proof (N.div_mod L 10 ltac:(lia)) as Hdm.
    pose proof (N.mod_lt L 10 ltac:(lia)) as Hm. lia. }
  split.
  - apply N.le_trans with (2 ^ L)%N; [|exact Hlo].
    apply N.pow_le_mono_r; [lia|exact H1].
  - apply N.lt_le_trans with (2 ^ N.succ L)%N; [exact Hhi|].
    change 1024%N with (2 ^ 10)%N. rewrite <- N.pow_add_r.
    apply N.pow_le_mono_r; lia.
Qed.

(** X14.  The number [formatBytes] prints.  For a positive count below
    [1024^4] the unit index [i] is below 4 and satisfies
    [1024^i <= bytes < 1024^(i+1)]; the number printed, in hundredths, is
    [bytes / 1024^i] rounded half up, so it lies between 1.00 and 1024.00
    and differs from the exact quotient by at most half a hundredth. *)
Theorem formatBytes_mantissa (n : N) :
  (0 < n < 1024 ^ 4)%N ->
  let i := unitIndex n in
  let hundredths := roundedHundredths n i in
  formatBytes n = showHundredths hundredths ++ " " ++ sizeName i /\
  (i < 4)%N /\
  (1024 ^ i <= n < 1024 * 1024 ^ i)%N /\
  (100 <= hundredths <= 102400)%N /\
  (2 * 1024 ^ i * hundredths <= 200 * n + 1024 ^ i < 2 * 1024 ^ i * (hundredths + 1))%N.
Proof.
  intros Hrange i hundredths.
  assert (Hpos : (0 < n)%N) by lia.
  split.
  { unfold formatBytes. destruct (N.eqb_spec n 0) as [->|_]; [lia|reflexivity]. }
  split; [exact (unitIndex_below_4 n Hrange)|].
  pose proof (unitIndex_bounds n Hpos) as Hb. fold i in Hb.
  subst hundredths. unfold roundedHundredths. clear Hrange.
  generalize dependent (1024 ^ i)%N. intros k Hb.
  pose proof (N.div_mod (200 * n + k) (2 * k) ltac:(lia)) as Hdm.
  pose proof (N.mod_lt (200 * n + k) (2 * k) ltac:(lia)) as Hm.
  generalize dependent ((200 * n + k) / (2 * k))%N. intros q Hdm.
  generalize dependent ((200 * n + k) mod (2 * k))%N. intros r Hdm Hm.
  split; [exact Hb|]. split; nia.
Qed.

Lemma formatBytes_mantissa_witness :
  (0 < 1048575 < 1024 ^ 4)%N /\ formatBytes 1048575 = "1024 KB".
Proof.
  assert (H : (0 < 1048575 < 1024 ^ 4)%N) by (split; reflexivity).
  split; [exact H|].
  exact (proj1 (formatBytes_mantissa 1048575 H)).
Defined.

(** X15.  The unit [formatBytes] prints.  For a positive count the unit is
    one of [Bytes], [KB], [MB], [GB] exactly when the count is below
    [1024^4]. *)
Theorem formatBytes_unit_iff (n : N) :
  (0 < n)%N ->
  (In (sizeName (unitIndex n)) sizes <-> (n < 1024 ^ 4)%N).
Proof.
  intros Hpos. split.
  - intros Hin. destruct (N.lt_ge_cases n (1024 ^ 4)) as [Hlt|Hge]; [exact Hlt|exfalso].
    apply unitIndex_from_4 in Hge. unfold sizeName in Hin.
    assert (Hnone : nth_error sizes (N.to_nat (unitIndex n)) = None).
    { apply nth_error_None. cbn. lia. }
    rewrite Hnone in Hin. cbn in Hin.
    destruct Hin as [H|[H|[H|[H|[]]]]]; discriminate H.
  - intros Hlt. apply formatBytes_unit_in_range. split; assumption.
Qed.

Lemma formatBytes_unit_iff_witness :
  (0 < 1234567)%N /\ In (sizeName (unitIndex 1234567)) sizes.
Proof.
  assert (H : (0 < 1234567)%N) by reflexivity.
  split; [exact H|].
  apply (proj2 (formatBytes_unit_iff 1234567 H)). reflexivity.
Defined.

(** * Further properties of digests, tags and content types *)

Lemma hexDigit_inj (n m : N) :
  (n < 16)%N -> (m < 16)%N -> hexDigit n = hexDigit m -> n = m.
Proof.
  intros Hn Hm. unfold hexDigit.
  assert (Hk : (N.to_nat n < 16)%nat) by lia.
  assert (Hl : (N.to_nat m < 16)%nat) by lia.
  intros H. apply N2Nat.inj. revert Hk Hl H.
  generalize (N.to_nat n) (N.to_nat m). intros k l Hk Hl.
  do 16 (destruct k as [|k];
         [do 16 (destruct l as [|l]; [first [reflexivity|cbn; discriminate]|]); lia|]).
  lia.
Qed.

Lemma byte_to_N_inj (a b : byte) : Byte.to_N a = Byte.to_N b -> a = b.
Proof.
  intros H. pose proof (Byte.of_to_N a) as Ha. pose proof (Byte.of_to_N b) as Hb.
  rewrite H in Ha. congruence.
Qed.

Lemma hex_inj (a b : list byte) : hex a = hex b -> a = b.
Proof.
  revert b. induction a as [|x a IH]; intros [|y b]; try discriminate; [reflexivity|].
  cbn [hex]. intros H. injection H as H1 H2 H3.
  pose proof (Byte.to_N_bounded x) as Hx. pose proof (Byte.to_N_bounded y) as Hy.
  apply hexDigit_inj in H1; [|apply N.Div0.div_lt_upper_bound; lia ..].
  apply hexDigit_inj in H2; [|apply N.mod_lt; lia ..].
  f_equal; [|apply IH; exact H3].
  apply byte_to_N_inj.
  rewrite (N.div_mod (Byte.to_N x) 16), (N.div_mod (Byte.to_N y) 16) by lia.
  rewrite H1, H2. reflexivity.
Qed.

(** X16.  Comparing the tag with the digest compares the MD5 values.  A
    file is classified [Unchanged] against an object this script uploaded
    exactly when the MD5 of its bytes is the MD5 of the bytes uploaded: the
    quotes of the tag are removed without loss, and two digests have the
    same hexadecimal string only when they are equal. *)
Theorem skipped_iff_same_md5 (h : Host) (body uploadedBody : list byte)
    (contentType directive : string) :
  syncDecision (md5hex h body)
    (ofOption (removeQuotes <$> ETag (storedObject h uploadedBody contentType directive)))
    = Unchanged
  <-> md5 h body = md5 h uploadedBody.
Proof.
  rewrite storedObject_tag. cbn [ofOption]. rewrite syncDecision_Unchanged. split.
  - intros [= H]. symmetry. apply hex_inj. exact H.
  - intros H. unfold md5hex. rewrite H. reflexivity.
Qed.

Lemma suffix_past_separator (s d n : list ascii) (c : ascii) :
  ~ In c s -> s `suffix_of` app d (c :: n) -> s `suffix_of` n.
Proof.
  destruct s as [|a s]; [intros _ _; apply suffix_nil|].
  intros Hc. induction d as [|x d IH]; cbn [app]; intros H.
  - apply suffix_cons_inv in H. destruct H as [Heq|H]; [|exact H].
    exfalso. apply Hc. injection Heq as -> _. left. reflexivity.
  - apply suffix_cons_inv in H. destruct H as [Heq|H]; [|exact (IH H)].
    exfalso. apply Hc. injection Heq as _ ->. right. apply in_or_app. right. left.
    reflexivity.
Qed.

Lemma endsWith_join (dir entryName suf : string) :
  ~ In "/"%char (list_ascii_of_string suf) ->
  endsWith (join dir entryName) suf = endsWith entryName suf.
Proof.
  intros Hc. unfold endsWith, join. apply bool_decide_ext.
  rewrite list_ascii_of_string_app.
  change (list_ascii_of_string ("/" ++ entryName))
    with ("/"%char :: list_ascii_of_string entryName).
  split.
  - apply suffix_past_separator. exact Hc.
  - intros H. apply suffix_app_r. apply suffix_cons_r. exact H.
Qed.

Lemma toLower_join (dir entryName : string) :
  toLower (join dir entryName) = join (toLower dir) (toLower entryName).
Proof. unfold join. rewrite !toLower_app. reflexivity. Qed.

(** X17.  Only the file name counts.  The allowlist test of a path and the
    content type of a path are those of its last component: the directory a
    file lies in, whatever its name, has no influence on whether the file is
    synced or on the type it is stored with. *)
Theorem path_tests_look_at_file_name (dir entryName : string) :
  matchesAllowlist (join dir entryName) = matchesAllowlist entryName /\
  contentTypeOf (join dir entryName) = contentTypeOf entryName.
Proof.
  assert (Hno : forall suf, In suf [".svg"; ".png"; ".json"] ->
            ~ In "/"%char (list_ascii_of_string suf)).
  { intros suf [<-|[<-|[<-|[]]]]; cbn; intuition discriminate. }
  split.
  - unfold matchesAllowlist. cbn [existsb allowedExtensions].
    rewrite toLower_join, !endsWith_join by (apply Hno; cbn; auto). reflexivity.
  - unfold contentTypeOf. rewrite !endsWith_join by (apply Hno; cbn; auto). reflexivity.
Qed.

(** * The data layer of the site *)

Module DataFacts.
Import Data.

(** The logos [getLogosByCountry] keeps for a country. *)
Lemma getLogosByCountry_filter (site : Site) (metadata : Metadata) (countrySlug : string) :
  getLogosByCountry site metadata countrySlug =
  List.filter (fun logo => String.eqb (country_slug logo) countrySlug
                           && existsSync site (coloringPagePath site logo))
    (logos metadata).
Proof.
  unfold getLogosByCountry. apply List.filter_ext. intros logo.
  destruct (String.eqb (country_slug logo) countrySlug); reflexivity.
Qed.

Lemma mapGet_mapSet (m : JsMap) (key key' : string) (value : nat) :
  mapGet (mapSet m key value) key' =
  if String.eqb key key' then Some value else mapGet m key'.
Proof.
  induction m as [|[k v] m IH]; cbn [mapSet mapGet].
  - destruct (String.eqb key key'); reflexivity.
  - destruct (String.eqb_spec k key) as [->|Hne]; cbn [mapGet].
    + destruct (String.eqb key key'); reflexivity.
    + rewrite IH. destruct (String.eqb_spec k key') as [->|Hne'].
      * destruct (String.eqb_spec key key') as [->|_]; [contradiction|reflexivity].
      * reflexivity.
Qed.

Lemma mapGet_None (m : JsMap) (key : string) :
  mapGet m key = None <-> ~ In key (List.map fst m).
Proof.
  induction m as [|[k v] m IH]; cbn [mapGet List.map fst In]; [tauto|].
  destruct (String.eqb_spec k key) as [->|Hne].
  - split; [discriminate|]. intros H. exfalso. apply H. left. reflexivity.
  - rewrite IH. tauto.
Qed.

Lemma keys_mapSet (m : JsMap) (key : string) (value : nat) :
  List.map fst (mapSet m key value) =
  match mapGet m key with
  | Some _ => List.map fst m
  | None => app (List.map fst m) [key]
  end.
Proof.
  induction m as [|[k v] m IH]; cbn [mapSet mapGet List.map fst]; [reflexivity|].
  destruct (String.eqb k key); cbn [List.map fst]; [reflexivity|].
  rewrite IH. destruct (mapGet m key); reflexivity.
Qed.

Lemma In_mapGet (m : JsMap) (key : string) (value : nat) :
  List.NoDup (List.map fst m) -> (In (key, value) m <-> mapGet m key = Some value).
Proof.
  induction m as [|[k v] m IH]; cbn [mapGet List.map fst In]; intros Hnd.
  - split; [intros []|discriminate].
  - inversion Hnd as [|? ? Hnotin Hnd']; subst.
    destruct (String.eqb_spec k key) as [->|Hne].
    + split.
      * intros [[= ->]|Hin]; [reflexivity|]. exfalso. apply Hnotin.
        apply in_map_iff. exists (key, value). split; [reflexivity|exact Hin].
      * intros [= ->]. left. reflexivity.
    + rewrite <- (IH Hnd'). split; [|tauto].
      intros [[= -> _]|Hin]; [contradiction|exact Hin].
Qed.

Lemma countLogo_wellFormed (site : Site) (m : JsMap) (logo : Logo) :
  wellFormed m -> wellFormed (countLogo site m logo).
Proof.
  intros [Hnd Hpos]. unfold countLogo.
  destruct (existsSync site (coloringPagePath site logo)); [|split; assumption]. split.
  - rewrite keys_mapSet. destruct (mapGet m (country_slug logo)) eqn:Hg; [exact Hnd|].
    apply NoDup_ListNoDup, NoDup_app. repeat split.
    + apply NoDup_ListNoDup. exact Hnd.
    + intros x Hx Hx'. apply list_elem_of_In in Hx. apply list_elem_of_In in Hx'.
      destruct Hx' as [<-|[]]. apply mapGet_None in Hg. contradiction.
    + apply NoDup_ListNoDup. repeat constructor. intros [].
  - intros key value. rewrite mapGet_mapSet.
    destruct (String.eqb (country_slug logo) key); [|apply Hpos].
    intros [= <-]. lia.
Qed.

Lemma countLogo_get (site : Site) (m : JsMap) (logo : Logo) (key : string) :
  orZero (mapGet (countLogo site m logo) key) =
  (orZero (mapGet m key) +
   if String.eqb (country_slug logo) key && existsSync site (coloringPagePath site logo)
   then 1 else 0)%nat.
Proof.
  unfold countLogo. destruct (existsSync site (coloringPagePath site logo)).
  - rewrite mapGet_mapSet, andb_true_r.
    destruct (String.eqb_spec (country_slug logo) key) as [->|_]; cbn [orZero]; lia.
  - rewrite andb_false_r. lia.
Qed.

Lemma fold_countLogo (site : Site) (logos : list Logo) :
  forall m, wellFormed m ->
    wellFormed (fold_left (countLogo site) logos m) /\
    forall key,
      orZero (mapGet (fold_left (countLogo site) logos m) key) =
      (orZero (mapGet m key) +
       List.length (List.filter
         (fun logo => String.eqb (country_slug logo) key
                      && existsSync site (coloringPagePath site logo)) logos))%nat.
Proof.
  induction logos as [|logo logos IH]; intros m Hm.
  - cbn. split; [exact Hm|]. intros key. lia.
  - cbn [fold_left List.filter].
    destruct (IH _ (countLogo_wellFormed site m logo Hm)) as [Hwf Hget].
    split; [exact Hwf|]. intros key. rewrite Hget, countLogo_get.
    destruct (String.eqb (country_slug logo) key
              && existsSync site (coloringPagePath site logo)); cbn [List.length]; lia.
Qed.

Lemma insertSorted_perm {A} (compare : A -> A -> Z) (x : A) (l : list A) :
  insertSorted compare x l ≡ₚ x :: l.
Proof.
  induction l as [|y l IH]; cbn [insertSorted]; [reflexivity|].
  destruct (compare x y <=? 0)%Z; [reflexivity|].
  rewrite IH. apply Permutation_swap.
Qed.

Lemma arraySort_perm {A} (compare : A -> A -> Z) (l : list A) :
  arraySort compare l ≡ₚ l.
Proof.
  unfold arraySort. induction l as [|x l IH]; cbn [fold_right]; [reflexivity|].
  rewrite insertSorted_perm, IH. reflexivity.
Qed.

(** X19.  The two listings of the site agree.  The result of
    [getCountriesWithCounts] has one entry per country that has a logo with
    a coloring page, and the count of an entry is the number of logos
    [getLogosByCountry] returns for that country; no country appears twice
    and none with a count of zero. *)
Theorem country_counts_match_listing (site : Site) (metadata : Metadata) :
  (forall country n,
     In {| slug := country; count := n |} (getCountriesWithCounts site metadata) <->
     n = List.length (getLogosByCountry site metadata country) /\ (0 < n)%nat) /\
  List.NoDup (List.map slug (getCountriesWithCounts site metadata)).
Proof.
  unfold getCountriesWithCounts.
  set (cc := fold_left (countLogo site) (logos metadata) []).
  assert (Hnil : wellFormed []).
  { split; [constructor|]. intros key value H. discriminate H. }
  destruct (fold_countLogo site (logos metadata) [] Hnil) as [[Hnd Hpos] Hget].
  fold cc in Hnd, Hpos, Hget.
  assert (Hfilter :
    List.filter (fun item => (0 <? count item)%nat)
      (List.map (fun entry => {| slug := fst entry; count := snd entry |}) cc)
    = List.map (fun entry => {| slug := fst entry; count := snd entry |}) cc).
  { apply forallb_filter_id. apply forallb_forall. intros item Hin.
    apply in_map_iff in Hin. destruct Hin as ([k v] & <- & Hin). cbn [count snd].
    apply Nat.ltb_lt. apply (Hpos k). apply In_mapGet; assumption. }
  rewrite Hfilter. split.
  - intros country n.
    rewrite <- list_elem_of_In, (arraySort_perm _ _), list_elem_of_In.
    rewrite getLogosByCountry_filter, in_map_iff. split.
    + intros ([k v] & [= -> ->] & Hin). apply In_mapGet in Hin; [|exact Hnd].
      specialize (Hget country). rewrite Hin in Hget. cbn [orZero mapGet] in Hget.
      split; [exact Hget|exact (Hpos _ _ Hin)].
    + intros [-> Hn]. eexists (country, _). split; [reflexivity|].
      apply In_mapGet; [exact Hnd|].
      specialize (Hget country). cbn [orZero mapGet] in Hget.
      destruct (mapGet cc country) as [v|]; cbn [orZero] in Hget;
        [f_equal; lia|exfalso; lia].
  - apply NoDup_ListNoDup. rewrite (arraySort_perm _ _). apply NoDup_ListNoDup.
    rewrite List.map_map. exact Hnd.
Qed.

(** X20.  A team that is listed can be looked up.  For every logo
    [getLogosByCountry] returns for a country, [getLogoByTeam] with that
    country and the team slug of the logo finds a logo of the metadata with
    that country and that team slug; and, for every country and team slug,
    [getLogoByTeam] answers [undefined] exactly when the metadata has no
    logo with the country and slug asked for. *)
Theorem listed_team_is_found (site : Site) (metadata : Metadata) (country : string) :
  (forall logo,
     In logo (getLogosByCountry site metadata country) ->
     exists found,
       getLogoByTeam metadata country (team_slug logo) = Some found /\
       In found (logos metadata) /\
       country_slug found = country /\
       team_slug found = team_slug logo) /\
  (forall team,
     getLogoByTeam metadata country team = None <->
     forall other, In other (logos metadata) ->
       ~ (country_slug other = country /\ team_slug other = team)).
Proof.
  split.
  - intros logo Hin. rewrite getLogosByCountry_filter in Hin.
    apply filter_In in Hin. destruct Hin as [Hin Hkeep].
    apply andb_true_iff in Hkeep. destruct Hkeep as [Hc _]. apply String.eqb_eq in Hc.
    unfold getLogoByTeam.
    destruct (List.find _ (logos metadata)) as [found|] eqn:Hf.
    + exists found. apply find_some in Hf. destruct Hf as [Hfin Hmatch].
      apply andb_true_iff in Hmatch. destruct Hmatch as [H1 H2].
      apply String.eqb_eq in H1. apply String.eqb_eq in H2. auto.
    + exfalso. pose proof (find_none _ _ Hf logo Hin) as Hno. cbn in Hno.
      rewrite Hc, !String.eqb_refl in Hno. discriminate Hno.
  - intros team. unfold getLogoByTeam. split.
    + intros Hf other Hother [H1 H2]. pose proof (find_none _ _ Hf other Hother) as Hno.
      cbn in Hno. rewrite H1, H2, !String.eqb_refl in Hno. discriminate Hno.
    + intros Hall. destruct (List.find _ (logos metadata)) as [found|] eqn:Hf; [|reflexivity].
      exfalso. apply find_some in Hf. destruct Hf as [Hfin Hmatch].
      apply andb_true_iff in Hmatch. destruct Hmatch as [H1 H2].
      apply String.eqb_eq in H1. apply String.eqb_eq in H2.
      exact (Hall found Hfin (conj H1 H2)).
Qed.

Lemma listed_team_is_found_witness :
  In arsenalLogo (getLogosByCountry sampleSite sampleMetadata "england") /\
  (exists found, getLogoByTeam sampleMetadata "england" "arsenal" = Some found) /\
  getLogoByTeam sampleMetadata "scotland" "arsenal" = None.
Proof.
  assert (H : In arsenalLogo (getLogosByCountry sampleSite sampleMetadata "england"))
    by (left; reflexivity).
  split; [exact H|]. split.
  - destruct (proj1 (listed_team_is_found sampleSite sampleMetadata "england") arsenalLogo H)
      as (found & Hfound & _).
    exists found. exact Hfound.
  - apply (proj2 (listed_team_is_found sampleSite sampleMetadata "scotland")).
    intros other [<-|[<-|[]]] [Hc _]; discriminate Hc.
Defined.

Lemma logo_path_shape (logo : Logo) (type : LogoType) (format : LogoFormat) :
  exists stem,
    getLogoPath logo type format =
    "/football_logos/" ++ (country_slug logo ++ stem) ++
    match format with svg => ".svg" | png => ".png" end.
Proof.
  destruct type, format; cbn [getLogoPath formatName].
  - exists ("/svg/" ++ base_name logo). rewrite !string_app_assoc. reflexivity.
  - exists ("/png/" ++ base_name logo). rewrite !string_app_assoc. reflexivity.
  - exists ("/coloring-pages/" ++ base_name logo ++ "_coloring").
    rewrite !string_app_assoc. reflexivity.
  - exists ("/coloring-pages/" ++ base_name logo ++ "_coloring").
    rewrite !string_app_assoc. reflexivity.
Qed.

Lemma logo_path_segments (logo : Logo) (type : LogoType) (format : LogoFormat) :
  exists sub suffix,
    getLogoPath logo type format =
      "/" ++ "football_logos" ++ "/" ++ country_slug logo ++ "/" ++ sub ++ "/"
         ++ base_name logo ++ suffix /\
    plainName sub = true /\ hasSlash suffix = false /\ (3 <= String.length suffix)%nat.
Proof.
  destruct type, format; cbn [getLogoPath formatName].
  - exists "svg", ".svg". rewrite !string_app_assoc. repeat split. cbn. lia.
  - exists "png", ".png". rewrite !string_app_assoc. repeat split. cbn. lia.
  - exists "coloring-pages", "_coloring.svg". rewrite !string_app_assoc.
    repeat split. cbn. lia.
  - exists "coloring-pages", "_coloring.png". rewrite !string_app_assoc.
    repeat split. cbn. lia.
Qed.

Lemma splitSlash_not_nil (s : string) : splitSlash s <> [].
Proof.
  destruct s as [|c s]; cbn; [discriminate|].
  destruct (Ascii.eqb c "/"); [discriminate|].
  destruct (splitSlash s); discriminate.
Qed.

Lemma splitSlash_plain (s : string) : hasSlash s = false -> splitSlash s = [s].
Proof.
  induction s as [|c s IH]; [reflexivity|]. cbn. intros H.
  apply orb_false_iff in H. destruct H as [Hc Hs]. rewrite Hc, (IH Hs). reflexivity.
Qed.

Lemma splitSlash_app (a b : string) :
  splitSlash (a ++ "/" ++ b) = app (splitSlash a) (splitSlash b).
Proof.
  induction a as [|c a IH]; [reflexivity|].
  change (String c a ++ "/" ++ b) with (String c (a ++ "/" ++ b)).
  cbn [splitSlash]. rewrite IH. destruct (Ascii.eqb c "/"); [reflexivity|].
  pose proof (splitSlash_not_nil a) as Hne.
  destruct (splitSlash a) as [|x xs]; [contradiction|reflexivity].
Qed.

Lemma hasSlash_app (a b : string) : hasSlash (a ++ b) = hasSlash a || hasSlash b.
Proof.
  induction a as [|c a IH]; [reflexivity|].
  change (String c a ++ b) with (String c (a ++ b)). cbn [hasSlash].
  rewrite IH, orb_assoc. reflexivity.
Qed.

Lemma string_length_app (a b : string) :
  String.length (a ++ b) = (String.length a + String.length b)%nat.
Proof.
  induction a as [|c a IH]; [reflexivity|].
  change (String c a ++ b) with (String c (a ++ b)). cbn [String.length].
  rewrite IH. reflexivity.
Qed.

(** A file name with an extension is a plain name. *)
Lemma plainName_suffixed (base suffix : string) :
  hasSlash base = false -> hasSlash suffix = false -> (3 <= String.length suffix)%nat ->
  plainName (base ++ suffix) = true.
Proof.
  intros Hb Hs Hlen. unfold plainName.
  rewrite hasSlash_app, Hb, Hs.
  assert (Hne : forall t, (String.length t < 3)%nat -> String.eqb (base ++ suffix) t = false).
  { intros t Ht. apply String.eqb_neq. intros Heq.
    apply (f_equal String.length) in Heq. rewrite string_length_app in Heq. lia. }
  rewrite !Hne by (cbn; lia). reflexivity.
Qed.

Lemma plainName_no_slash (s : string) : plainName s = true -> hasSlash s = false.
Proof.
  unfold plainName. intros H. apply andb_true_iff in H. destruct H as [_ H].
  apply negb_true_iff in H. exact H.
Qed.

(** X21.  The site and the sync agree on names.  Take a script directory
    that is a resolved path and a logo whose country slug is a plain name
    and whose base name has no slash.  For every kind and format, the file
    at the path [getLogoPath] returns below the directory of the script is
    at a resolved path, so that the key the sync computes for it is the
    part after the logo directory; that path is a slash followed by the
    key, the file passes the allowlist, and it is stored with the content
    type of its format, never the generic one. *)
Theorem logo_path_is_bucket_key (h : Host) (logo : Logo) (type : LogoType)
    (format : LogoFormat) :
  resolved (dirname h) = true ->
  plainName (country_slug logo) = true ->
  hasSlash (base_name logo) = false ->
  let path := getLogoPath logo type format in
  let localPath := dirname h ++ path in
  resolved localPath = true /\
  String "/" (keyOf h localPath) = path /\
  matchesAllowlist localPath = true /\
  contentTypeOf localPath =
    match format with
    | svg => "image/svg+xml"
    | png => "image/png"
    end.
Proof.
  intros Hdir Hcountry Hbase path localPath. subst path localPath.
  split.
  { destruct (logo_path_segments logo type format)
      as (sub & suffix & -> & Hsub & Hsuffix & Hlen).
    unfold resolved in *.
    rewrite !splitSlash_app.
    rewrite (splitSlash_plain "football_logos") by reflexivity.
    rewrite (splitSlash_plain (country_slug logo)) by (apply plainName_no_slash, Hcountry).
    rewrite (splitSlash_plain sub) by (apply plainName_no_slash, Hsub).
    rewrite (splitSlash_plain (base_name logo ++ suffix))
      by (rewrite hasSlash_app, Hbase, Hsuffix; reflexivity).
    destruct (splitSlash (dirname h)) as [|[|c s] [|first names]]; try discriminate Hdir.
    cbn [app]. rewrite app_comm_cons, forallb_app, Hdir.
    cbn [forallb]. rewrite Hcountry, Hsub, (plainName_suffixed _ _ Hbase Hsuffix Hlen).
    reflexivity. }
  destruct (logo_path_shape logo type format) as [stem ->].
  set (ext := match format with svg => ".svg" | png => ".png" end).
  set (rest := (country_slug logo ++ stem) ++ ext).
  assert (Hlocal : dirname h ++ "/football_logos/" ++ rest = logosDir h ++ "/" ++ rest).
  { unfold logosDir, join. rewrite !string_app_assoc. reflexivity. }
  assert (Hext : dirname h ++ "/football_logos/" ++ rest =
                 (dirname h ++ "/football_logos/" ++ country_slug logo ++ stem) ++ ext).
  { unfold rest. rewrite !string_app_assoc. reflexivity. }
  split; [|split].
  - rewrite Hlocal. unfold keyOf, r2KeyOf, relative.
    rewrite <- (string_app_assoc (logosDir h) "/" rest), stripPrefix_app. reflexivity.
  - rewrite Hext. apply matchesAllowlist_app. unfold ext. destruct format; reflexivity.
  - unfold contentTypeOf. rewrite Hext. unfold ext. destruct format.
    + rewrite endsWith_app. reflexivity.
    + destruct (endsWith _ ".svg") eqn:E.
      { apply endsWith_same_length in E; [discriminate E|reflexivity]. }
      rewrite endsWith_app. reflexivity.
Qed.

Lemma logo_path_is_bucket_key_witness :
  let localPath := dirname sampleHost ++ getLogoPath arsenalLogo original svg in
  resolved (dirname sampleHost) = true /\
  plainName (country_slug arsenalLogo) = true /\
  hasSlash (base_name arsenalLogo) = false /\
  localPath = "/app/football_logos/england/svg/arsenal.svg" /\
  resolved localPath = true /\
  String "/" (keyOf sampleHost localPath) = "/football_logos/england/svg/arsenal.svg" /\
  contentTypeOf localPath = "image/svg+xml".
Proof.
  intros localPath.
  assert (H1 : resolved (dirname sampleHost) = true) by reflexivity.
  assert (H2 : plainName (country_slug arsenalLogo) = true) by reflexivity.
  assert (H3 : hasSlash (base_name arsenalLogo) = false) by reflexivity.
  destruct (logo_path_is_bucket_key sampleHost arsenalLogo original svg H1 H2 H3)
    as (Hres & Hkey & _ & Htype).
  split; [exact H1|]. split; [exact H2|]. split; [exact H3|].
  split; [reflexivity|]. split; [exact Hres|]. split; [exact Hkey|exact Htype].
Defined.

End DataFacts.

(** * Recovery *)

Lemma fault_free_outcomes (h : Host) (cfg : Config) (localFiles : list string) :
  (forall p, In p localFiles ->
     (exists body, readFile h p = Ok body) /\ (exists n, statSize h p = Ok n)) ->
  forall w, faults w = [] ->
    countWhere isFailure (fst (outcomes h cfg localFiles w)) = 0%nat.
Proof.
  induction localFiles as [|p rest IH]; intros Hok w Hf; [reflexivity|].
  rewrite outcomes_cons. cbn [fst]. rewrite countWhere_cons. cbn [snd].
  destruct (Hok p (or_introl eq_refl)) as [[body Hr] [n Hs]].
  destruct (pipeline_fault_free h cfg p w body n Hr Hs Hf) as (_ & _ & [d Hd] & Hf').
  rewrite Hd. cbn [isFailure]. rewrite IH; [reflexivity| |exact Hf'].
  intros q Hq. apply Hok. right. exact Hq.
Qed.

(** X18.  Re-running repairs.  Whatever the bucket holds, for instance
    after a run that was interrupted or lost requests, a run without
    transport fault over scanned files that can all be read and measured
    records no failure and leaves every one of them in sync: the tag under
    its key, quotes removed, is the digest of its local bytes. *)
Theorem fault_free_run_repairs (h : Host) (cfg : Config) (localFiles : list string)
    (out : list (Stream * string)) (w : World) :
  getFiles (logosDir h) (logosListing h) [] = Ok localFiles ->
  faults w = [] ->
  (forall p, In p localFiles ->
     (exists body, readFile h p = Ok body) /\ (exists n, statSize h p = Ok n)) ->
  errors (fst (syncLoop h cfg localFiles (initialRun out) w)) = [] /\
  Forall (synced h (bucket (snd (syncLoop h cfg localFiles (initialRun out) w)))) localFiles.
Proof.
  intros Hscan Hf Hok.
  pose proof (fault_free_outcomes h cfg localFiles Hok w Hf) as Hnone.
  destruct (syncLoop_outcomes h cfg localFiles (initialRun out) w) as (Hw & _ & _ & _ & He).
  split.
  - rewrite He. cbn [initialRun errors app]. apply no_failure_entries. exact Hnone.
  - rewrite Hw. apply first_run_syncs; [|exact Hnone].
    exact (getFiles_under _ _ _ Hscan).
Qed.

Lemma fault_free_run_repairs_witness :
  getFiles (logosDir sampleHost) (logosListing sampleHost) [] = Ok [arsenal; chelsea] /\
  faults untaggedWorld = [] /\
  errors (fst (syncLoop sampleHost sampleConfig [arsenal; chelsea] (initialRun [])
                 untaggedWorld)) = [].
Proof.
  assert (H1 : getFiles (logosDir sampleHost) (logosListing sampleHost) []
               = Ok [arsenal; chelsea]) by reflexivity.
  assert (H2 : faults untaggedWorld = []) by reflexivity.
  assert (H3 : forall p, In p [arsenal; chelsea] ->
     (exists body, readFile sampleHost p = Ok body) /\
     (exists n, statSize sampleHost p = Ok n)).
  { intros p [<-|[<-|[]]]; split; eexists; reflexivity. }
  split; [exact H1|]. split; [exact H2|].
  exact (proj1 (fault_free_run_repairs sampleHost sampleConfig [arsenal; chelsea] []
                  untaggedWorld H1 H2 H3)).
Defined.
